(** * react-uploady: the uploader queue's batch helpers and the chunked sender

    A shallow embedding of
    - [packages/core/uploader/src/queue/batchHelpers.js],
    - the progress handler of [packages/uploader/src/queue/index.js],
    - [packages/chunked-sender/src/chunkedSender/sendChunk.js],
    followed by the properties of these operations. *)

From stdpp Require Import gmap strings list fin_maps pretty.
From Stdlib Require Import ZArith.

Open Scope Z_scope.

(* ===================================================================== *)
(** ** JavaScript values, exceptions, truthiness *)
(* ===================================================================== *)

Module JS.

(** What a [throw] carries: the [TypeError] of a property read on
    [undefined], and the sender's own [ChunkedSendError]. *)
Inductive exn :=
| TypeError (msg : string)
| ChunkedSendError (msg : string).

(** The outcome of a synchronous call. *)
Inductive outcome (A : Type) :=
| Ok (a : A)
| Throw (e : exn).
Arguments Ok {A} a.
Arguments Throw {A} e.

(** Primitive values, [undefined] among them. *)
Inductive jsprim :=
| JUndefined
| JNull
| JBool (b : bool)
| JNum (n : Z)
| JStr (s : string).

(** A property value: a primitive or a plain object of primitives
    (the [headers] of the send options). *)
Inductive jsval :=
| JPrim (p : jsprim)
| JObj (o : gmap string jsprim).

(** A plain object used as a bag of options. A key bound to
    [JPrim JUndefined] is present with an explicit [undefined]; an absent
    key is not in the map. *)
Abbreviation object := (gmap string jsval).

#[global] Instance jsprim_eq_dec : EqDecision jsprim.
Proof. solve_decision. Defined.
#[global] Instance jsval_eq_dec : EqDecision jsval.
Proof. solve_decision. Defined.

(** [!!s] for a string: only the empty string is falsy. *)
Definition truthy_string (s : string) : bool := bool_decide (s ≠ "").

(** [!!x] for [x : ?string] ([None] is [null]/[undefined]). *)
Definition truthy (x : option string) : bool :=
  match x with
  | Some s => truthy_string s
  | None => false
  end.

(** [a || b] on optional strings. *)
Definition or_else (a b : option string) : option string :=
  if truthy a then a else b.

(** [Array.prototype.indexOf]: the first position holding [x], or [-1]. *)
Definition indexOf `{EqDecision A} (x : A) (l : list A) : Z :=
  match list_find (λ y, y = x) l with
  | Some (i, _) => Z.of_nat i
  | None => -1
  end.

(** [Array.prototype.findIndex]. *)
Definition findIndex {A} (P : A → bool) (l : list A) : Z :=
  match list_find (λ y, P y = true) l with
  | Some (i, _) => Z.of_nat i
  | None => -1
  end.

(** The test [if (~index)]: bitwise not is zero exactly at [-1]. *)
Definition tilde (index : Z) : bool := negb (Z.lnot index =? 0).

(** [l.splice(index, 1)] for an index that [indexOf]/[findIndex] gave. *)
Definition splice1 {A} (index : Z) (l : list A) : list A :=
  delete (Z.to_nat index) l.

(** Code with effects on a world [W] (the queue, the chunked state): a call
    either returns or throws, and the world it leaves behind is there in
    both cases. *)
Definition Eff (W A : Type) : Type := W → outcome A * W.

Definition ret {W A} (a : A) : Eff W A := λ w, (Ok a, w).

Definition throw {W A} (e : exn) : Eff W A := λ w, (Throw e, w).

Definition bind {W A B} (m : Eff W A) (k : A → Eff W B) : Eff W B :=
  λ w,
    match m w with
    | (Ok a, w') => k a w'
    | (Throw e, w') => (Throw e, w')
    end.

Notation "'let!' x ':=' m 'in' k" := (bind m (λ x, k))
  (at level 10, x name, m at level 100, k at level 200, only parsing).
Notation "m ';;;' k" := (bind m (λ _, k))
  (at level 100, k at level 200, right associativity, only parsing).

(** Reading a property of [x] where [x] may be [undefined]: a [TypeError]
    when it is. *)
Definition prop_of {W A} (what : string) (x : option A) : Eff W A :=
  match x with
  | Some a => ret a
  | None => throw (TypeError what)
  end.

End JS.
Export JS.

(* ===================================================================== *)
(** ** [@rpldy/shared]: states, merge *)
(* ===================================================================== *)

Module Shared.

(** Modelled from the spec: the constants [FILE_STATES] of [@rpldy/shared]
    are not among the sources; the spec lists the item lifecycle as
    created (pending for a deferred batch), added, processing, uploading,
    and the terminal states finished, error, cancelled, aborted. *)
Inductive FILE_STATES :=
| FILE_PENDING
| FILE_ADDED
| FILE_PROCESSING
| FILE_UPLOADING
| FILE_FINISHED
| FILE_ERROR
| FILE_CANCELLED
| FILE_ABORTED.

(** Modelled from the spec: the constants [BATCH_STATES]; the spec's batch
    lifecycle is pending, added, processing, uploading, then finished,
    cancelled or error. *)
Inductive BATCH_STATES :=
| BATCH_PENDING
| BATCH_ADDED
| BATCH_PROCESSING
| BATCH_UPLOADING
| BATCH_FINISHED
| BATCH_CANCELLED
| BATCH_ERROR.

#[global] Instance FILE_STATES_eq_dec : EqDecision FILE_STATES.
Proof. solve_decision. Defined.
#[global] Instance BATCH_STATES_eq_dec : EqDecision BATCH_STATES.
Proof. solve_decision. Defined.

(** Modelled from the spec: the options of [getMerge], of which the sources
    show one, [getMerge({ undefinedOverwrites: true })] in [sendChunk.js];
    it selects the spec's "explicit-undefined overwrites" semantics. *)
Record MergeOptions := { undefinedOverwrites : bool }.

(** Modelled from the spec: one key of a nested object under [getMerge],
    given what the target ([t]) and the source ([s]) hold at that key. A key
    the source does not have keeps the target's value; a key the source
    binds to [undefined] replaces it under "explicit-undefined overwrites"
    and is ignored otherwise; any other value replaces it. *)
Definition mergeProp (options : MergeOptions) (t s : option jsprim)
  : option jsprim :=
  match s with
  | None => t
  | Some JUndefined => if undefinedOverwrites options then s else t
  | Some _ => s
  end.

(** Modelled from the spec: one key of the merged object under [getMerge],
    with the same rule as [mergeProp]. The override is partial at every
    level: an object-valued key of the source (the [headers]) is merged key
    by key into the object the target holds at that key (into a fresh one
    when it holds none). *)
Definition mergeKey (options : MergeOptions) (t s : option jsval)
  : option jsval :=
  match s with
  | None => t
  | Some (JPrim JUndefined) => if undefinedOverwrites options then s else t
  | Some (JPrim _) => s
  | Some (JObj so) =>
      let to := match t with Some (JObj to) => to | _ => ∅ end in
      Some (JObj (base.merge (mergeProp options) to so))
  end.

(** Modelled from the spec: [getMerge] of [@rpldy/shared] is not among the
    sources. The spec describes a merge of overrides over defaults and
    names the variant with "explicit-undefined overwrites": a key present in
    the override with an unset value still replaces the default rather than
    being ignored. [getMerge(options)(target, ...sources)] merges the
    sources into the target from left to right; a source that is
    [null]/[undefined] ([None]) is skipped. *)
Definition getMerge (options : MergeOptions) (target : object)
    (sources : list (option object)) : object :=
  foldl (λ target source,
           match source with
           | Some source => base.merge (mergeKey options) target source
           | None => target
           end)
        target sources.

(** Modelled from the spec: [merge] of [@rpldy/shared] is not among the
    sources, so what it does with an unset value cannot be read off the
    code. The spec has [preparePendingForUpload] merge the caller's options
    over the stored ones 'using "explicit-undefined overwrites" semantics
    (an explicit unset value in the override still replaces the default
    rather than being ignored)', and says of merging in general that
    'overriding an option with an explicit unset value must overwrite the
    corresponding default rather than being ignored'. The merge that
    [batchHelpers.js] calls is modelled as the spec words it. *)
Definition merge : object → list (option object) → object :=
  getMerge {| undefinedOverwrites := true |}.

End Shared.
Export Shared.

(* ===================================================================== *)
(** ** The queue's data: items, batches, the state *)
(* ===================================================================== *)

(** The file of an item, as far as the sender looks at it. *)
Module File.
Record t := mk { name : string; size : Z }.
#[global] Instance File_eq_dec : EqDecision t.
Proof. solve_decision. Defined.
End File.

Module BatchItem.
Record t := mk {
  id : string;
  batchId : string;
  state : FILE_STATES;
  loaded : Z;
  completed : Z;
  recycled : bool;
  previousBatch : option string;
  file : File.t;
}.
#[global] Instance BatchItem_eq_dec : EqDecision t.
Proof. solve_decision. Defined.

(** [item.state = s] *)
Definition set_state (s : FILE_STATES) (item : t) : t :=
  mk (id item) (batchId item) s (loaded item) (completed item)
     (recycled item) (previousBatch item) (file item).

(** [item.loaded = l; item.completed = c] *)
Definition set_progress (l c : Z) (item : t) : t :=
  mk (id item) (batchId item) (state item) l c
     (recycled item) (previousBatch item) (file item).
End BatchItem.

(** A batch lists its items as records of its own; the store's records of
    the same ids are in [State.items]. *)
Module Batch.
Record t := mk {
  id : string;
  items : list BatchItem.t;
  state : BATCH_STATES;
}.
#[global] Instance Batch_eq_dec : EqDecision t.
Proof. solve_decision. Defined.

Definition set_items (l : list BatchItem.t) (batch : t) : t :=
  mk (id batch) l (state batch).
Definition set_state (s : BATCH_STATES) (batch : t) : t :=
  mk (id batch) (items batch) s.
End Batch.

Module BatchData.
Record t := mk {
  batch : Batch.t;
  batchOptions : object;
}.
#[global] Instance BatchData_eq_dec : EqDecision t.
Proof. solve_decision. Defined.

Definition set_batch (b : Batch.t) (batchData : t) : t :=
  mk b (batchOptions batchData).
End BatchData.

(** The state the queue keeps ([queue/index.js], lines 21-28). The abort
    callbacks are kept by name only. *)
Module State.
Record t := mk {
  itemQueue : list string;
  currentBatch : option string;
  batches : gmap string BatchData.t;
  items : gmap string BatchItem.t;
  activeIds : list string;
  aborts : gmap string string;
}.

Definition initial : t := mk [] None ∅ ∅ [] ∅.

Definition set_itemQueue (q : list string) (s : t) : t :=
  mk q (currentBatch s) (batches s) (items s) (activeIds s) (aborts s).
Definition set_currentBatch (c : option string) (s : t) : t :=
  mk (itemQueue s) c (batches s) (items s) (activeIds s) (aborts s).
Definition set_batches (b : gmap string BatchData.t) (s : t) : t :=
  mk (itemQueue s) (currentBatch s) b (items s) (activeIds s) (aborts s).
Definition set_items (i : gmap string BatchItem.t) (s : t) : t :=
  mk (itemQueue s) (currentBatch s) (batches s) i (activeIds s) (aborts s).
End State.

(** Modelled from the spec: the event names of [../consts] are not among
    the sources; the spec lists the emitted lifecycle events. *)
Inductive UPLOADER_EVENTS :=
| BATCH_ADD
| BATCH_START
| BATCH_FINISH
| BATCH_CANCEL
| ITEM_PROGRESS
| ITEM_FINISH
| ITEM_ABORT.

(** Modelled from the spec: [ITEM_FINALIZE_STATES] of [../consts]; a
    finalize state is finished, error, cancelled or aborted. *)
Definition ITEM_FINALIZE_STATES : list FILE_STATES :=
  [FILE_FINISHED; FILE_ERROR; FILE_CANCELLED; FILE_ABORTED].

(** What [triggerUploaderBatchEvent] hands to the listeners: the batch's own
    fields with each listed item replaced by the store's item of that id
    ([None] where the store has none). *)
Module EventBatch.
Record t := mk {
  id : string;
  state : BATCH_STATES;
  items : list (option BatchItem.t);
}.
End EventBatch.

Inductive Payload :=
| ItemPayload (item : option BatchItem.t)
| BatchPayload (eventBatch : EventBatch.t).

(** What leaves the queue towards the event bus. *)
Inductive Emitted :=
| Trigger (event : UPLOADER_EVENTS) (payload : Payload)
| RunCancellable (event : UPLOADER_EVENTS) (batch : Batch.t).

(** The queue object handed to every helper: the current snapshot behind
    [getState()] and, in order, what was sent to [trigger] and
    [runCancellable]. *)
Record QueueState := mkQueue {
  getState : State.t;
  emitted : list Emitted;
}.

(** A helper runs on the queue and either returns or throws; the queue it
    leaves behind is there in both cases. *)
Definition Q (A : Type) : Type := Eff QueueState A.

(** [queue.getState()] *)
Definition readState : Q State.t := λ queue, (Ok (getState queue), queue).

(** [queue.updateState(updater)]: the next snapshot is the updater's result
    on the current one. *)
Definition updateState (updater : State.t → State.t) : Q unit :=
  λ queue, (Ok tt, mkQueue (updater (getState queue)) (emitted queue)).

(** [queue.trigger(event, payload)] *)
Definition trigger (event : UPLOADER_EVENTS) (payload : Payload) : Q unit :=
  λ queue, (Ok tt, mkQueue (getState queue)
                           (emitted queue ++ [Trigger event payload])).

(** [queue.runCancellable(event, batch)]: the call itself; the promise it
    returns is settled by the listeners later. *)
Definition runCancellable (event : UPLOADER_EVENTS) (batch : Batch.t) : Q unit :=
  λ queue, (Ok tt, mkQueue (getState queue)
                           (emitted queue ++ [RunCancellable event batch])).

(** Modelled from the spec: [unwrap] of [@rpldy/simple-state] is not among
    the sources; it yields a detached copy of the state object it is given.
    Values of the embedding are immutable, so the copy is the value. *)
Definition unwrap {A} (x : A) : A := x.

(* ===================================================================== *)
(** ** [queue/batchHelpers.js] *)
(* ===================================================================== *)

Module BatchHelpers.

(** [state.batches[id].batch] *)
Definition getBatchFromState (state : State.t) (id : string) : Q Batch.t :=
  let! batchData := prop_of "batch" (State.batches state !! id) in
  ret (BatchData.batch batchData).

Definition getBatch (id : string) : Q Batch.t :=
  let! state := readState in
  getBatchFromState state id.

(** [state.batches[item.batchId]], which may be [undefined]; reading
    [item.batchId] throws when the item is not in the store. *)
Definition getBatchDataFromItemId (itemId : string) : Q (option BatchData.t) :=
  let! state := readState in
  let! item := prop_of "batchId" (State.items state !! itemId) in
  ret (State.batches state !! BatchItem.batchId item).

Definition getBatchFromItemId (itemId : string) : Q Batch.t :=
  let! batchData := getBatchDataFromItemId itemId in
  let! batchData := prop_of "batch" batchData in
  ret (BatchData.batch batchData).

(** One round of the [forEach] in [removeBatchItems]: drop the item from
    the mapping and splice its first occurrence out of the pending
    sequence. *)
Definition removeItem (state : State.t) (item : BatchItem.t) : State.t :=
  let id := BatchItem.id item in
  let state := State.set_items (delete id (State.items state)) state in
  let index := indexOf id (State.itemQueue state) in
  if tilde index
  then State.set_itemQueue (splice1 index (State.itemQueue state)) state
  else state.

Definition removeBatchItems (batchId : string) : Q unit :=
  let! batch := getBatch batchId in
  updateState (λ state, foldl removeItem state (Batch.items batch)).

Definition removeBatch (batchId : string) : Q unit :=
  updateState (λ state,
    State.set_batches (delete batchId (State.batches state)) state).

Definition isNewBatchStarting (itemId : string) : Q bool :=
  let! batch := getBatchFromItemId itemId in
  let! state := readState in
  ret (bool_decide (State.currentBatch state ≠ Some (Batch.id batch))).

(** The callback given to [.then] in [loadNewBatchForItem], with the
    [batch] it closes over; it runs on the queue as it is when the
    listeners have answered. *)
Definition loadNewBatchForItem_then (batch : Batch.t) (isCancelled : bool)
  : Q bool :=
  (if negb isCancelled
   then updateState (State.set_currentBatch (Some (Batch.id batch)))
   else ret tt);;;
  ret (negb isCancelled).

(** [loadNewBatchForItem] looks the batch up, calls [runCancellable] and
    returns the promise chained with the callback: here, the callback that
    awaits the listeners' verdict [isCancelled]. *)
Definition loadNewBatchForItem (itemId : string) : Q (bool → Q bool) :=
  let! batch := getBatchFromItemId itemId in
  runCancellable BATCH_START batch;;;
  ret (loadNewBatchForItem_then batch).

Definition isBatchFinished : Q bool :=
  let! state := readState in
  match State.itemQueue state with
  | [] => ret true
  | itemId :: _ => isNewBatchStarting itemId
  end.

Definition triggerUploaderBatchEvent (batchId : string)
    (event : UPLOADER_EVENTS) : Q unit :=
  let! state := readState in
  let! batch := getBatchFromState state batchId in
  let stateItems := State.items state in
  let eventBatch :=
    EventBatch.mk (Batch.id (unwrap batch)) (Batch.state (unwrap batch))
      (map (λ item, unwrap (stateItems !! BatchItem.id item))
           (Batch.items batch)) in
  trigger event (BatchPayload eventBatch).

Definition cleanUpFinishedBatch : Q unit :=
  let! state := readState in
  match State.currentBatch state with
  | Some batchId =>
      if truthy_string batchId
         && bool_decide (is_Some (State.batches state !! batchId))
      then
        let! finished := isBatchFinished in
        if finished : bool
        then
          triggerUploaderBatchEvent batchId BATCH_FINISH;;;
          removeBatchItems batchId;;;
          removeBatch batchId
        else ret tt
      else ret tt
  | None => ret tt
  end.

(** The updater of [detachRecycledFromPreviousBatch]; it is run only for a
    [batchId] that is in [state.batches]. *)
Definition detachItem (batchId itemId : string) (state : State.t) : State.t :=
  State.set_batches
    (alter (λ batchData,
              let batch := BatchData.batch batchData in
              let index :=
                findIndex (λ item, bool_decide (BatchItem.id item = itemId))
                          (Batch.items batch) in
              if tilde index
              then BatchData.set_batch
                     (Batch.set_items (splice1 index (Batch.items batch)) batch)
                     batchData
              else batchData)
           batchId (State.batches state))
    state.

Definition detachRecycledFromPreviousBatch (item : BatchItem.t) : Q unit :=
  let! state := readState in
  match BatchItem.previousBatch item with
  | Some previousBatch =>
      if BatchItem.recycled item
         && truthy_string previousBatch
         && bool_decide (is_Some (State.batches state !! previousBatch))
      then
        let! batch := getBatchFromItemId (BatchItem.id item) in
        let batchId := Batch.id batch in
        if bool_decide (batchId = previousBatch)
        then updateState (detachItem batchId (BatchItem.id item))
        else ret tt
      else ret tt
  | None => ret tt
  end.

(** What [preparePendingForUpload] does to one entry of [state.batches]. *)
Definition preparePending (uploadOptions : option object)
    (batchData : BatchData.t) : BatchData.t :=
  let batch := BatchData.batch batchData in
  let batchOptions := BatchData.batchOptions batchData in
  if bool_decide (Batch.state batch = BATCH_PENDING)
  then
    BatchData.mk
      (Batch.mk (Batch.id batch)
                (map (BatchItem.set_state FILE_ADDED) (Batch.items batch))
                BATCH_ADDED)
      (Shared.merge ∅ [Some batchOptions; uploadOptions])
  else batchData.

Definition preparePendingForUpload (uploadOptions : option object) : Q unit :=
  updateState (λ state,
    State.set_batches (preparePending uploadOptions <$> State.batches state)
                      state).

Definition ensureNonUploadingBatchCleaned (batchId : string) : Q unit :=
  let! state := readState in
  let! batch := getBatchFromState state batchId in
  let activeItem :=
    find (λ item, negb (bool_decide
                          (BatchItem.state item ∈ ITEM_FINALIZE_STATES)))
         (Batch.items batch) in
  match activeItem with
  | None => removeBatchItems batchId;;; removeBatch batchId
  | Some _ => ret tt
  end.

(** [l.forEach(f)] for a callback that runs on the queue. *)
Fixpoint forEach {A} (f : A → Q unit) (l : list A) : Q unit :=
  match l with
  | [] => ret tt
  | x :: l => f x;;; forEach f l
  end.

Definition BATCH_READY_STATES : list BATCH_STATES :=
  [BATCH_ADDED; BATCH_PROCESSING; BATCH_UPLOADING].

Definition isItemBelongsToBatch (itemId batchId : string) : Q bool :=
  let! state := readState in
  let! item := prop_of "batchId" (State.items state !! itemId) in
  ret (bool_decide (BatchItem.batchId item = batchId)).

(** [queue.updateState(updater)] for an updater that reads
    [state.batches[batchId].batch] before it writes: when that read throws,
    nothing has been written and the exception reaches the caller. *)
Definition updateStateWith (updater : State.t → outcome State.t) : Q unit :=
  λ queue,
    match updater (getState queue) with
    | Ok state => (Ok tt, mkQueue state (emitted queue))
    | Throw e => (Throw e, queue)
    end.

(** The updater of [cancelBatchForItem]:
    [getBatchFromState(state, batchId).state = BATCH_STATES.CANCELLED]. *)
Definition cancelBatch (batchId : string) (state : State.t)
  : outcome State.t :=
  match State.batches state !! batchId with
  | Some batchData =>
      Ok (State.set_batches
            (<[batchId :=
                 BatchData.set_batch
                   (Batch.set_state BATCH_CANCELLED (BatchData.batch batchData))
                   batchData]>
               (State.batches state))
            state)
  | None => Throw (TypeError "batch")
  end.

Definition cancelBatchForItem (itemId : string) : Q unit :=
  let! batch := getBatchFromItemId itemId in
  let batchId := Batch.id batch in
  updateStateWith (cancelBatch batchId);;;
  triggerUploaderBatchEvent batchId BATCH_CANCEL;;;
  removeBatchItems batchId;;;
  removeBatch batchId.

Definition getIsItemBatchReady (itemId : string) : Q bool :=
  let! batch := getBatchFromItemId itemId in
  ret (bool_decide (Batch.state batch ∈ BATCH_READY_STATES)).

(** The test of the [filter] in [removePendingBatches], on the batches read
    when the function was entered. *)
Definition isPendingIn (batches : gmap string BatchData.t) (batchId : string)
  : bool :=
  match batches !! batchId with
  | Some batchData =>
      bool_decide (Batch.state (BatchData.batch batchData) = BATCH_PENDING)
  | None => false
  end.

(** [removePendingBatches], given in [keys] what [Object.keys(batches)]
    enumerates: every key of the store's batches, once, in the order in
    which they were inserted (an order the map of the embedding does not
    keep). *)
Definition removePendingBatches (keys : list string) : Q unit :=
  let! state := readState in
  let batches := State.batches state in
  forEach (λ batchId, removeBatchItems batchId;;; removeBatch batchId)
          (List.filter (isPendingIn batches) keys).

End BatchHelpers.
Export BatchHelpers.

(* ===================================================================== *)
(** ** [queue/index.js]: adding items, the sender's progress events *)
(* ===================================================================== *)

Module Queue.

Definition add (item : BatchItem.t) : Q unit :=
  updateState (λ state,
    State.set_itemQueue (State.itemQueue state ++ [BatchItem.id item])
      (State.set_items (<[BatchItem.id item := item]> (State.items state))
                       state)).

(** The handler registered with [sender.on(SENDER_EVENTS.PROGRESS, ...)]. *)
Definition onSenderProgress (item : BatchItem.t) (completed loaded : Z)
  : Q unit :=
  let! state := readState in
  if bool_decide (is_Some (State.items state !! BatchItem.id item))
  then
    updateState (λ state,
      State.set_items
        (alter (BatchItem.set_progress loaded completed) (BatchItem.id item)
               (State.items state))
        state);;;
    let! state := readState in
    trigger ITEM_PROGRESS (ItemPayload (State.items state !! BatchItem.id item))
  else ret tt.

Section Scheduler.

(** [processQueueNext] of [./processQueueNext], the scheduler, which is
    outside this file. *)
Variable processQueueNext : Q unit.

Definition uploadBatch (batch : Batch.t) (batchOptions : object) : Q unit :=
  updateState (λ state,
    State.set_batches
      (<[Batch.id batch := BatchData.mk batch batchOptions]>
         (State.batches state))
      state);;;
  forEach add (Batch.items batch);;;
  processQueueNext.

End Scheduler.

(** [getCurrentActiveCount] of the queue object. *)
Definition getCurrentActiveCount : Q nat :=
  let! state := readState in
  ret (length (State.activeIds state)).

End Queue.
Export Queue.

(* ===================================================================== *)
(** ** [chunkedSender/sendChunk.js] *)
(* ===================================================================== *)

(** A slice of a file. *)
Module Blob.
Record t := mk { size : Z; name : string }.
#[global] Instance Blob_eq_dec : EqDecision t.
Proof. solve_decision. Defined.
End Blob.

Module Chunk.
Record t := mk {
  id : string;
  start : Z;
  end_ : Z;
  index : nat;
  attempt : Z;
  data : option Blob.t;
}.
#[global] Instance Chunk_eq_dec : EqDecision t.
Proof. solve_decision. Defined.

(** [chunk.data = d] *)
Definition set_data (d : option Blob.t) (chunk : t) : t :=
  mk (id chunk) (start chunk) (end_ chunk) (index chunk) (attempt chunk) d.
End Chunk.

(** The state of one chunked upload, as far as [sendChunk.js] reads it. *)
Module ChunkedData.
Record t := mk {
  chunks : list Chunk.t;
  url : option string;
  sendOptions : object;
}.
Definition set_chunks (l : list Chunk.t) (state : t) : t :=
  mk l (url state) (sendOptions state).
End ChunkedData.

Module SendChunk.

(** [pick(chunk, ["id", "start", "end", "index", "attempt"])] *)
Record ChunkMeta := pick {
  meta_id : string;
  meta_start : Z;
  meta_end : Z;
  meta_index : nat;
  meta_attempt : Z;
}.

(** [createBatchItem(data, id)] of [@rpldy/shared], kept as the call it is:
    the item sent over the wire for one chunk. *)
Inductive ChunkItem :=
| createBatchItem (data : option Blob.t) (id : string).

(** The payload of the chunk-start interception ([onProgress], a function,
    is left out). *)
Record ChunkStartEventData := mkChunkStart {
  ev_item : BatchItem.t;
  ev_chunk : ChunkMeta;
  ev_chunkItem : ChunkItem;
  ev_sendOptions : object;
  ev_url : option string;
  ev_chunkIndex : Z;
  ev_chunkCount : nat;
}.

(** What a settled request resolves to. *)
Record UploadData := mkUploadData {
  state : FILE_STATES;
  response : string;
  status : Z;
}.

(** The [request] promise of a send result: already resolved (the skipped
    chunk), or the transport's own promise for the request it started. *)
Inductive Request :=
| Resolved (data : UploadData)
| TransportRequest (handle : nat).

(** The [abort] function of a send result: [() => true] of the skipped
    chunk, or the transport's abort for the request it started. *)
Inductive AbortFn :=
| abortSkipped
| abortTransport (handle : nat).

Record SendResult := mkSendResult {
  request : Request;
  abort : AbortFn;
  senderType : string;
}.

(** What the chunk-start listeners answer through [triggerUpdater]:
    [false], nothing, or an object that may carry [url] and
    [sendOptions]. *)
Inductive UpdatedData :=
| UFalse
| UUndefined
| UData (url : option string) (sendOptions : option object).

(** [updatedData?.url] and [updatedData?.sendOptions] *)
Definition updated_url (updatedData : UpdatedData) : option string :=
  match updatedData with
  | UData url _ => url
  | _ => None
  end.
Definition updated_sendOptions (updatedData : UpdatedData) : option object :=
  match updatedData with
  | UData _ sendOptions => sendOptions
  | _ => None
  end.

(** What the sender does to the outside, in order. *)
Inductive Effect :=
| SliceFile (file : File.t) (start end_ : Z)
| TriggerUpdater (payload : ChunkStartEventData)
| XhrSend (items : list ChunkItem) (url : option string) (sendOptions : object)
| CallAbort (f : AbortFn).

(** The [chunkedState] object: the snapshot behind [getState()], and the
    effects so far. *)
Record ChunkedState := mkChunked {
  getState : ChunkedData.t;
  effects : list Effect;
}.

Definition C (A : Type) : Type := Eff ChunkedState A.

Definition readChunked : C ChunkedData.t := λ w, (Ok (getState w), w).

Definition perform (e : Effect) : C unit :=
  λ w, (Ok tt, mkChunked (getState w) (effects w ++ [e])).

(** Modelled from the spec: the chunked state object ([getChunkedState]) is
    not among the sources. The spec has the sender "obtain the chunk's
    current (fresh) snapshot immediately before sending"; the comment next
    to the call in [sendChunk.js] reads
    [chunkedState.getState().chunks[chunk.index]]. The result is [undefined]
    where the state has no chunk at that index. *)
Definition getFreshChunk (chunk : Chunk.t) : C (option Chunk.t) :=
  let! state := readChunked in
  ret (ChunkedData.chunks state !! Chunk.index chunk).

(** Modelled from the spec: [updateChunk(chunk, updater)] of the chunked
    state object runs the updater on the state's own chunk at the index of
    [chunk] and stores the result; the updater's write to [fresh.data]
    throws where there is no such chunk. *)
Definition updateChunk (chunk : Chunk.t) (updater : Chunk.t → C Chunk.t)
  : C unit :=
  let! state := readChunked in
  let! fresh := prop_of "data" (ChunkedData.chunks state !! Chunk.index chunk) in
  let! fresh := updater fresh in
  λ w, (Ok tt,
        mkChunked
          (ChunkedData.set_chunks
             (<[Chunk.index chunk := fresh]> (ChunkedData.chunks (getState w)))
             (getState w))
          (effects w)).

(** [data && `bytes ${start}-${start + data.size - 1}/${item.file.size}`]:
    the falsy [data] itself when there is none. *)
Definition getContentRangeValue (chunk : Chunk.t) (data : option Blob.t)
    (item : BatchItem.t) : jsprim :=
  match data with
  | None => JNull
  | Some data =>
      JStr ("bytes " +:+ pretty (Chunk.start chunk) +:+ "-"
            +:+ pretty (Chunk.start chunk + Blob.size data - 1) +:+ "/"
            +:+ pretty (File.size (BatchItem.file item)))
  end.

Definition mergeWithUndefined : object → list (option object) → object :=
  getMerge {| undefinedOverwrites := true |}.

Definition getSkippedResult : SendResult :=
  {| request := Resolved {| state := FILE_FINISHED;
                            response := "skipping chunk as instructed by CHUNK_START handler";
                            status := 200 |};
     abort := abortSkipped;
     senderType := "chunk-skipped-sender" |}.

(** [state.sendOptions.headers], spread into a fresh object. *)
Definition headers_of (sendOptions : object) : gmap string jsprim :=
  match sendOptions !! "headers" with
  | Some (JObj headers) => headers
  | _ => ∅
  end.

(** What [uploadChunkWithUpdatedData] holds on to while it awaits the
    listeners. *)
Record Awaited := mkAwaited {
  aw_state : ChunkedData.t;
  aw_sendOptions : object;
  aw_chunkItem : ChunkItem;
}.

Section Transport.

(** [getChunkDataFromFile] of [../utils] and the default export of
    [@rpldy/sender]: the file slicing and the transport, both outside the
    sender. *)
Variable getChunkDataFromFile : File.t → Z → Z → option Blob.t.
Variable xhrSend : list ChunkItem → option string → object → SendResult.

(** What the transport's [abort] of a request answers. *)
Variable transportAbort : nat → bool.

(** Calling the [abort] of a send result. *)
Definition callAbort (f : AbortFn) : C bool :=
  perform (CallAbort f);;;
  ret (match f with
       | abortSkipped => true
       | abortTransport handle => transportAbort handle
       end).

(** [uploadChunkWithUpdatedData] up to its [await]. *)
Definition uploadChunkWithUpdatedData (chunk : Chunk.t) (item : BatchItem.t)
  : C Awaited :=
  let! state := readChunked in
  let sendOptions :=
    <["headers" :=
        JObj (<["Content-Range" :=
                  getContentRangeValue chunk (Chunk.data chunk) item]>
                (headers_of (unwrap (ChunkedData.sendOptions state))))]>
      (unwrap (ChunkedData.sendOptions state)) in
  let chunkItem := createBatchItem (Chunk.data chunk) (Chunk.id chunk) in
  let chunkIndex := indexOf chunk (ChunkedData.chunks state) in
  perform (TriggerUpdater
             {| ev_item := unwrap item;
                ev_chunk := pick (Chunk.id chunk) (Chunk.start chunk)
                                 (Chunk.end_ chunk) (Chunk.index chunk)
                                 (Chunk.attempt chunk);
                ev_chunkItem := chunkItem;
                ev_sendOptions := sendOptions;
                ev_url := ChunkedData.url state;
                ev_chunkIndex := chunkIndex;
                ev_chunkCount := length (ChunkedData.chunks state) |});;;
  ret (mkAwaited state sendOptions chunkItem).

(** [uploadChunkWithUpdatedData] from its [await] on, with what the
    listeners answered. *)
Definition uploadChunkWithUpdatedData_resume (awaited : Awaited)
    (updatedData : UpdatedData) : C SendResult :=
  let state := aw_state awaited in
  let skipChunk := match updatedData with UFalse => true | _ => false end in
  if skipChunk
  then ret getSkippedResult
  else
    let url := or_else (updated_url updatedData) (ChunkedData.url state) in
    let sendOptions :=
      mergeWithUndefined ∅ [Some (aw_sendOptions awaited);
                            updated_sendOptions updatedData] in
    perform (XhrSend [aw_chunkItem awaited] url sendOptions);;;
    ret (xhrSend [aw_chunkItem awaited] url sendOptions).

(** The promise [chunkXhrRequest]. *)
Inductive ChunkXhrRequest :=
| Awaiting (awaited : Awaited)
| Fulfilled (result : SendResult)
| Rejected (reason : string).

(** The callbacks registered on [chunkXhrRequest] with [.then]. *)
Inductive Callback :=
| ThenRequest      (* [({ request }) => request] *)
| ThenAbort.       (* [({ abort }) => abort()] *)

(** What [sendChunk] returns, followed over time: the promise
    [chunkXhrRequest] with the callbacks waiting on it, and what the
    returned [request] has come to so far ([None] while pending,
    [Some (inr reason)] when rejected). *)
Record Sending := mkSending {
  chunkXhrRequest : ChunkXhrRequest;
  callbacks : list Callback;
  sending_request : option (Request + string);
  sending_senderType : string;
}.

(** The default export. *)
Definition sendChunk (chunk : Chunk.t) (item : BatchItem.t) : C Sending :=
  (match Chunk.data chunk with
   | None =>
       updateChunk chunk (λ fresh,
         perform (SliceFile (BatchItem.file item)
                            (Chunk.start chunk) (Chunk.end_ chunk));;;
         ret (Chunk.set_data
                (getChunkDataFromFile (BatchItem.file item)
                                      (Chunk.start chunk) (Chunk.end_ chunk))
                fresh))
   | Some _ => ret tt
   end);;;
  let! chunk := getFreshChunk chunk in
  let! chunk := prop_of "data" chunk in
  match Chunk.data chunk with
  | None => throw (ChunkedSendError "chunk failure - failed to slice")
  | Some _ =>
      let! awaited := uploadChunkWithUpdatedData chunk item in
      ret {| chunkXhrRequest := Awaiting awaited;
             callbacks := [ThenRequest];
             sending_request := None;
             sending_senderType := "chunk-passthrough-sender" |}
  end.

(** Running one callback of [chunkXhrRequest] on the result it was
    fulfilled with. *)
Definition run_callback (result : SendResult) (sending : Sending)
    (callback : Callback) : C Sending :=
  match callback with
  | ThenRequest =>
      ret (mkSending (chunkXhrRequest sending) (callbacks sending)
                     (Some (inl (request result)))
                     (sending_senderType sending))
  | ThenAbort => callAbort (abort result);;; ret sending
  end.

Fixpoint run_callbacks (result : SendResult) (sending : Sending)
    (l : list Callback) : C Sending :=
  match l with
  | [] => ret sending
  | callback :: l =>
      let! sending := run_callback result sending callback in
      run_callbacks result sending l
  end.

(** The [abort] of the object [sendChunk] returns: a callback on
    [chunkXhrRequest] that calls the result's own [abort], run at once when
    the promise is fulfilled, kept when it is pending, and never run when it
    is rejected. *)
Definition sending_abort (sending : Sending) : C (bool * Sending) :=
  match chunkXhrRequest sending with
  | Awaiting _ =>
      ret (true, mkSending (chunkXhrRequest sending)
                           (callbacks sending ++ [ThenAbort])
                           (sending_request sending)
                           (sending_senderType sending))
  | Fulfilled result =>
      let! sending := run_callback result sending ThenAbort in
      ret (true, sending)
  | Rejected _ => ret (true, sending)
  end.

(** The listeners answer: [uploadChunkWithUpdatedData] goes on,
    [chunkXhrRequest] is fulfilled with its result, and the callbacks
    waiting on it run in the order they were registered. *)
Definition settle (updatedData : UpdatedData) (sending : Sending)
  : C Sending :=
  match chunkXhrRequest sending with
  | Awaiting awaited =>
      let! result := uploadChunkWithUpdatedData_resume awaited updatedData in
      run_callbacks result
        (mkSending (Fulfilled result) [] (sending_request sending)
                   (sending_senderType sending))
        (callbacks sending)
  | _ => ret sending
  end.

(** The listeners fail: [chunkXhrRequest] is rejected, and with it the
    returned [request]; the callbacks are dropped. *)
Definition settle_rejected (reason : string) (sending : Sending)
  : C Sending :=
  match chunkXhrRequest sending with
  | Awaiting _ =>
      ret (mkSending (Rejected reason) [] (Some (inr reason))
                     (sending_senderType sending))
  | _ => ret sending
  end.

End Transport.

End SendChunk.

(* ===================================================================== *)
(** ** Vocabulary of the properties *)
(* ===================================================================== *)

(** Taking the first element that satisfies [P] out of [l], as
    [findIndex] followed by the guarded [splice] does. *)
Definition spliceFirst {A} (P : A → bool) (l : list A) : list A :=
  let index := findIndex P l in
  if tilde index then splice1 index l else l.

(** The test for the id [id]. *)
Definition sameId (id : string) : string → bool := λ y, bool_decide (y = id).

(** The ids a batch lists. *)
Definition batchItemIds (batch : Batch.t) : list string :=
  BatchItem.id <$> Batch.items batch.

(** An item in a finalize state. *)
Definition finalized (item : BatchItem.t) : Prop :=
  BatchItem.state item ∈ ITEM_FINALIZE_STATES.

(** The batch that owns an item of the store: the entry of [state.batches]
    under the item's [batchId]. *)
Definition owner (state : State.t) (itemId : string) : option Batch.t :=
  item ← State.items state !! itemId;
  batchData ← State.batches state !! BatchItem.batchId item;
  Some (BatchData.batch batchData).

(** "The batch is finished": the pending sequence is empty, or its head
    item belongs to a different batch than [currentBatch]. *)
Definition batchFinished (state : State.t) : Prop :=
  match State.itemQueue state with
  | [] => True
  | itemId :: _ =>
      ∃ batch, owner state itemId = Some batch
               ∧ State.currentBatch state ≠ Some (Batch.id batch)
  end.

(** The preconditions of [cleanUpFinishedBatch]: [currentBatch] is set, its
    entry is in the store, and the batch is finished. *)
Definition cleanable (state : State.t) (batchId : string)
    (batchData : BatchData.t) : Prop :=
  State.currentBatch state = Some batchId
  ∧ batchId ≠ ""
  ∧ State.batches state !! batchId = Some batchData
  ∧ batchFinished state.

(** The snapshot a batch event carries: the batch with the store's items
    under the ids it lists. *)
Definition snapshot (state : State.t) (batch : Batch.t) : EventBatch.t :=
  EventBatch.mk (Batch.id batch) (Batch.state batch)
    (map (λ item, State.items state !! BatchItem.id item) (Batch.items batch)).

(** The preconditions under which [detachRecycledFromPreviousBatch] looks
    for the item in its previous batch: the item is recycled, its
    [previousBatch] names a batch of the store, and the store's record of
    the item is still owned by that batch. *)
Definition detachable (state : State.t) (item : BatchItem.t)
    (previousBatch : string) (batchData : BatchData.t) : Prop :=
  BatchItem.recycled item = true
  ∧ BatchItem.previousBatch item = Some previousBatch
  ∧ previousBatch ≠ ""
  ∧ State.batches state !! previousBatch = Some batchData
  ∧ ∃ batch, owner state (BatchItem.id item) = Some batch
             ∧ Batch.id batch = previousBatch.

(** The part of [sendChunk] after the optional slicing: the fresh chunk is
    read from the state and is the one that is sent. *)
Definition sendFresh (chunk : Chunk.t) (item : BatchItem.t)
  : SendChunk.C SendChunk.Sending :=
  let! chunk := SendChunk.getFreshChunk chunk in
  let! chunk := prop_of "data" chunk in
  match Chunk.data chunk with
  | None => throw (ChunkedSendError "chunk failure - failed to slice")
  | Some _ =>
      let! awaited := SendChunk.uploadChunkWithUpdatedData chunk item in
      ret (SendChunk.mkSending (SendChunk.Awaiting awaited)
                               [SendChunk.ThenRequest] None
                               "chunk-passthrough-sender")
  end.

(** The chunk at the index of [chunk] in the chunked state. *)
Definition freshChunk (w : SendChunk.ChunkedState) (chunk : Chunk.t)
  : option Chunk.t :=
  ChunkedData.chunks (SendChunk.getState w) !! Chunk.index chunk.

(** The chunked state after the slice of [chunk] was stored on the state's
    own chunk [fresh]. *)
Definition sliced (getChunkDataFromFile : File.t → Z → Z → option Blob.t)
    (w : SendChunk.ChunkedState) (chunk fresh : Chunk.t) (item : BatchItem.t)
  : SendChunk.ChunkedState :=
  SendChunk.mkChunked
    (ChunkedData.set_chunks
       (<[Chunk.index chunk :=
            Chunk.set_data
              (getChunkDataFromFile (BatchItem.file item)
                                    (Chunk.start chunk) (Chunk.end_ chunk))
              fresh]>
          (ChunkedData.chunks (SendChunk.getState w)))
       (SendChunk.getState w))
    (SendChunk.effects w
     ++ [SendChunk.SliceFile (BatchItem.file item)
                             (Chunk.start chunk) (Chunk.end_ chunk)]).

(** The interception [payload] and what the sender keeps while awaiting
    the listeners are those of the chunk [fresh] in the state of [w]. *)
Definition startedWith (w : SendChunk.ChunkedState) (fresh : Chunk.t)
    (item : BatchItem.t) (awaited : SendChunk.Awaited)
    (payload : SendChunk.ChunkStartEventData) : Prop :=
  SendChunk.aw_state awaited = SendChunk.getState w
  ∧ SendChunk.aw_chunkItem awaited
    = SendChunk.createBatchItem (Chunk.data fresh) (Chunk.id fresh)
  ∧ SendChunk.aw_sendOptions awaited = SendChunk.ev_sendOptions payload
  ∧ SendChunk.ev_sendOptions payload !! "headers"
    = Some (JObj (<["Content-Range" :=
                      SendChunk.getContentRangeValue fresh (Chunk.data fresh)
                                                     item]>
                    (SendChunk.headers_of
                       (ChunkedData.sendOptions (SendChunk.getState w)))))
  ∧ SendChunk.ev_chunk payload
    = SendChunk.pick (Chunk.id fresh) (Chunk.start fresh) (Chunk.end_ fresh)
                     (Chunk.index fresh) (Chunk.attempt fresh)
  ∧ SendChunk.ev_chunkItem payload
    = SendChunk.createBatchItem (Chunk.data fresh) (Chunk.id fresh)
  ∧ SendChunk.ev_item payload = item
  ∧ SendChunk.ev_url payload = ChunkedData.url (SendChunk.getState w)
  ∧ SendChunk.ev_chunkCount payload
    = length (ChunkedData.chunks (SendChunk.getState w)).

(** No slicing among the effects [l]. *)
Definition noSlicing (l : list SendChunk.Effect) : Prop :=
  ∀ file start end_, SendChunk.SliceFile file start end_ ∉ l.

(** "Every id in the pending sequence is in the item mapping." *)
Definition tracked (state : State.t) : Prop :=
  ∀ id, id ∈ State.itemQueue state → is_Some (State.items state !! id).

(** What the updater of [add] makes of the state. *)
Definition added (state : State.t) (item : BatchItem.t) : State.t :=
  State.set_itemQueue (State.itemQueue state ++ [BatchItem.id item])
    (State.set_items (<[BatchItem.id item := item]> (State.items state))
                     state).

(** The state with the entry of a batch written, as the first update of
    [uploadBatch] leaves it. *)
Definition registered (state : State.t) (batch : Batch.t)
    (batchOptions : object) : State.t :=
  State.set_batches
    (<[Batch.id batch := BatchData.mk batch batchOptions]>
       (State.batches state))
    state.

(** A batch whose items are new to the store: its id names no entry, it
    lists no id twice, and none of the ids it lists is tracked or pending. *)
Definition freshBatch (state : State.t) (batch : Batch.t) : Prop :=
  State.batches state !! Batch.id batch = None
  ∧ NoDup (batchItemIds batch)
  ∧ ∀ id, id ∈ batchItemIds batch →
          State.items state !! id = None ∧ id ∉ State.itemQueue state.

(** The state after a batch was purged: the items it lists taken out, then
    its entry deleted. *)
Definition purged (state : State.t) (batchId : string)
    (batchData : BatchData.t) : State.t :=
  State.set_batches
    (delete batchId (State.batches state))
    (foldl removeItem state (Batch.items (BatchData.batch batchData))).

(** A pending batch. *)
Definition pending (batchData : BatchData.t) : Prop :=
  Batch.state (BatchData.batch batchData) = BATCH_PENDING.

(** No network call among the effects [l]. *)
Definition noNetwork (l : list SendChunk.Effect) : Prop :=
  ∀ items url sendOptions, SendChunk.XhrSend items url sendOptions ∉ l.

(** Calling the [abort] of what [sendChunk] returned [n] times in a row. *)
Fixpoint abortTimes (transportAbort : nat → bool) (n : nat)
    (sending : SendChunk.Sending) : SendChunk.C SendChunk.Sending :=
  match n with
  | O => ret sending
  | S n =>
      let! answer := SendChunk.sending_abort transportAbort sending in
      abortTimes transportAbort n answer.2
  end.

(* ===================================================================== *)
(** ** Sample stores *)
(* ===================================================================== *)

Module Samples.

Definition flower : File.t := File.mk "flower.jpg" 1000.

(** An item of a batch, with nothing uploaded yet. *)
Definition item (id batchId : string) (state : FILE_STATES) : BatchItem.t :=
  BatchItem.mk id batchId state 0 0 false None flower.

(** The same item resubmitted after an attempt in [previousBatch]. *)
Definition recycledItem (id batchId previousBatch : string)
    (state : FILE_STATES) : BatchItem.t :=
  BatchItem.mk id batchId state 0 0 true (Some previousBatch) flower.

Definition batchData (id : string) (items : list BatchItem.t)
    (state : BATCH_STATES) (batchOptions : object) : BatchData.t :=
  BatchData.mk (Batch.mk id items state) batchOptions.

(** One batch in upload with one item, nothing else pending. *)
Definition uploading : QueueState :=
  mkQueue
    (State.mk ["item-1"] (Some "batch-1")
       {[ "batch-1" := batchData "batch-1" [item "item-1" "batch-1" FILE_UPLOADING]
                                 BATCH_UPLOADING ∅ ]}
       {[ "item-1" := item "item-1" "batch-1" FILE_UPLOADING ]}
       ["item-1"] ∅)
    [].

(** The first batch is done and still named by [currentBatch]; the item of
    a second batch heads the pending sequence. *)
Definition betweenBatches : QueueState :=
  mkQueue
    (State.mk ["item-2"] (Some "batch-1")
       {[ "batch-2" := batchData "batch-2" [item "item-2" "batch-2" FILE_ADDED]
                                 BATCH_ADDED ∅ ]}
       {[ "item-2" := item "item-2" "batch-2" FILE_ADDED ]}
       [] ∅)
    [].

(** A deferred batch waiting for its upload to be requested. *)
Definition storedOptions : object :=
  {[ "method" := JPrim (JStr "POST"); "autoUpload" := JPrim (JBool false) ]}.

Definition deferred : QueueState :=
  mkQueue
    (State.mk ["item-1"] None
       {[ "batch-1" := batchData "batch-1" [item "item-1" "batch-1" FILE_PENDING]
                                 BATCH_PENDING storedOptions ]}
       {[ "item-1" := item "item-1" "batch-1" FILE_PENDING ]}
       [] ∅)
    [].

(** Options that override [autoUpload] and carry an explicit [undefined]
    for [method]. *)
Definition overrideOptions : object :=
  {[ "method" := JPrim JUndefined; "autoUpload" := JPrim (JBool true) ]}.

(** A batch whose only item failed, still named by [currentBatch], with
    nothing pending. *)
Definition allFailed : QueueState :=
  mkQueue
    (State.mk [] (Some "batch-1")
       {[ "batch-1" := batchData "batch-1" [item "item-1" "batch-1" FILE_ERROR]
                                 BATCH_UPLOADING ∅ ]}
       {[ "item-1" := item "item-1" "batch-1" FILE_ERROR ]}
       [] ∅)
    [].

(** The first batch has finished its only item; the item of the second
    batch heads the pending sequence. *)
Definition firstDone : QueueState :=
  mkQueue
    (State.mk ["item-2"] (Some "batch-1")
       {[ "batch-1" := batchData "batch-1" [item "item-1" "batch-1" FILE_FINISHED]
                                 BATCH_UPLOADING ∅;
          "batch-2" := batchData "batch-2" [item "item-2" "batch-2" FILE_ADDED]
                                 BATCH_ADDED ∅ ]}
       {[ "item-1" := item "item-1" "batch-1" FILE_FINISHED;
          "item-2" := item "item-2" "batch-2" FILE_ADDED ]}
       [] ∅)
    [].


(** The first batch still lists its aborted item, which is about to be
    resubmitted. *)
Definition retrying : QueueState :=
  mkQueue
    (State.mk [] (Some "batch-1")
       {[ "batch-1" := batchData "batch-1"
                         [item "item-1" "batch-1" FILE_ABORTED;
                          item "item-3" "batch-1" FILE_UPLOADING]
                         BATCH_UPLOADING ∅ ]}
       {[ "item-1" := item "item-1" "batch-1" FILE_ABORTED;
          "item-3" := item "item-3" "batch-1" FILE_UPLOADING ]}
       ["item-3"] ∅)
    [].

(** The same, with the store's record of the item already replaced by the
    resubmitted one, owned by a second batch. *)
Definition reattached : QueueState :=
  mkQueue
    (State.mk ["item-1"] (Some "batch-1")
       {[ "batch-1" := batchData "batch-1"
                         [item "item-1" "batch-1" FILE_ABORTED;
                          item "item-3" "batch-1" FILE_UPLOADING]
                         BATCH_UPLOADING ∅;
          "batch-2" := batchData "batch-2"
                         [recycledItem "item-1" "batch-2" "batch-1" FILE_ADDED]
                         BATCH_ADDED ∅ ]}
       {[ "item-1" := recycledItem "item-1" "batch-2" "batch-1" FILE_ADDED;
          "item-3" := item "item-3" "batch-1" FILE_UPLOADING ]}
       ["item-3"] ∅)
    [].

(** A file of 1000 bytes cut into two chunks of 500, the second one
    already tried once in the state. *)
Definition chunk0 : Chunk.t := Chunk.mk "c-0" 0 500 0 0 None.
Definition chunk1 : Chunk.t := Chunk.mk "c-1" 500 1000 1 0 None.
Definition chunk1_retried : Chunk.t :=
  Chunk.mk "c-1" 500 1000 1 1 (Some (Blob.mk 500 "flower.jpg")).

Definition baseSendOptions : object :=
  {[ "method" := JPrim (JStr "POST");
     "withCredentials" := JPrim (JBool true);
     "headers" := JObj {[ "x-upload" := JStr "1" ]} ]}.

Definition chunked : SendChunk.ChunkedState :=
  SendChunk.mkChunked
    (ChunkedData.mk [chunk0; chunk1_retried] (Some "https://upload.test/")
                    baseSendOptions)
    [].

(** A file that can be sliced, and one that cannot. *)
Definition slices (file : File.t) (start end_ : Z) : option Blob.t :=
  Some (Blob.mk (end_ - start) (File.name file)).
Definition noSlice (file : File.t) (start end_ : Z) : option Blob.t := None.

(** A transport that hands out request 7 and whose abort succeeds. *)
Definition xhr (items : list SendChunk.ChunkItem) (url : option string)
    (sendOptions : object) : SendChunk.SendResult :=
  SendChunk.mkSendResult (SendChunk.TransportRequest 7)
                         (SendChunk.abortTransport 7) "xhr-sender".
Definition xhrAbort (handle : nat) : bool := true.


(** The second chunk as a caller may still hold it: with its data, and the
    attempt count of before the retry. *)
Definition chunk1_stale : Chunk.t :=
  Chunk.mk "c-1" 500 1000 1 0 (Some (Blob.mk 500 "flower.jpg")).

(** The send of the second chunk, waiting for the chunk-start listeners. *)
Definition awaited : SendChunk.Awaited :=
  SendChunk.mkAwaited (SendChunk.getState chunked) baseSendOptions
    (SendChunk.createBatchItem (Some (Blob.mk 500 "flower.jpg")) "c-1").

Definition waiting : SendChunk.Sending :=
  SendChunk.mkSending (SendChunk.Awaiting awaited) [SendChunk.ThenRequest]
                      None "chunk-passthrough-sender".

(** A batch of two files about to be submitted to an empty queue. *)
Definition emptyQueue : QueueState := mkQueue State.initial [].

Definition twoFiles : Batch.t :=
  Batch.mk "batch-1"
    [item "item-1" "batch-1" FILE_ADDED; item "item-2" "batch-1" FILE_ADDED]
    BATCH_ADDED.

(** A deferred batch beside a batch in upload. *)
Definition mixed : QueueState :=
  mkQueue
    (State.mk ["item-1"; "item-2"] (Some "batch-1")
       {[ "batch-1" := batchData "batch-1" [item "item-1" "batch-1" FILE_UPLOADING]
                                 BATCH_UPLOADING ∅;
          "batch-2" := batchData "batch-2" [item "item-2" "batch-2" FILE_PENDING]
                                 BATCH_PENDING ∅ ]}
       {[ "item-1" := item "item-1" "batch-1" FILE_UPLOADING;
          "item-2" := item "item-2" "batch-2" FILE_PENDING ]}
       ["item-1"] ∅)
    [].

(** The first chunk as a caller may hold it after the state lost its data:
    still carrying a slice. *)
Definition chunk0_held : Chunk.t :=
  Chunk.mk "c-0" 0 500 0 0 (Some (Blob.mk 500 "flower.jpg")).

End Samples.

(* ===================================================================== *)
(** * Properties *)
(* ===================================================================== *)

(** ** Arrays: [indexOf], [findIndex], [splice] *)

Section Arrays.
Context {A : Type}.
Implicit Types l : list A.

Lemma tilde_true index : tilde index = true ↔ index ≠ -1.
Proof.
  unfold tilde. rewrite negb_true_iff, Z.eqb_neq.
  unfold Z.lnot. lia.
Qed.

Lemma tilde_of_nat (i : nat) : tilde (Z.of_nat i) = true.
Proof. apply tilde_true. lia. Qed.

Lemma tilde_minus_one : tilde (-1) = false.
Proof. reflexivity. Qed.

Lemma splice1_of_nat (i : nat) l : splice1 (Z.of_nat i) l = delete i l.
Proof. unfold splice1. by rewrite Nat2Z.id. Qed.

Lemma spliceFirst_none (P : A → bool) l :
  Forall (λ y, P y = false) l → spliceFirst P l = l.
Proof.
  intros Hall. unfold spliceFirst, findIndex.
  replace (list_find (λ y, P y = true) l) with (@None (nat * A)); [done|].
  symmetry. apply list_find_None.
  eapply Forall_impl; [exact Hall|]. intros y Hy. by rewrite Hy.
Qed.

Lemma spliceFirst_some (P : A → bool) l x :
  x ∈ l → P x = true →
  ∃ (i : nat) y,
    l !! i = Some y ∧ P y = true
    ∧ (∀ (j : nat) z, l !! j = Some z → (j < i)%nat → P z = false)
    ∧ spliceFirst P l = delete i l.
Proof.
  intros Hin HP.
  destruct (list_find_elem_of (λ y, P y = true) l x Hin HP) as [[i y] Hfind].
  pose proof Hfind as (Hi & HPy & Hless)%list_find_Some.
  exists i, y. split_and!; [done..| |].
  - intros j z Hj Hlt. specialize (Hless j z Hj Hlt).
    by destruct (P z).
  - unfold spliceFirst, findIndex. rewrite Hfind.
    by rewrite tilde_of_nat, splice1_of_nat.
Qed.

Lemma spliceFirst_sublist (P : A → bool) l : spliceFirst P l `sublist_of` l.
Proof.
  unfold spliceFirst. destruct (tilde _); [|done].
  apply sublist_delete.
Qed.

Lemma spliceFirst_length (P : A → bool) l x :
  x ∈ l → P x = true → S (length (spliceFirst P l)) = length l.
Proof.
  intros Hin HP.
  destruct (spliceFirst_some P l x Hin HP) as (i & y & Hi & _ & _ & ->).
  rewrite length_delete by eauto.
  apply lookup_lt_Some in Hi. lia.
Qed.

(** Elements that [P] rejects stay, in number and in order. *)
Lemma spliceFirst_filter (P : A → bool) (Q : A → Prop)
    `{!∀ y, Decision (Q y)} l :
  (∀ y, Q y → P y = false) →
  filter Q (spliceFirst P l) = filter Q l.
Proof.
  intros HQ.
  destruct (decide (Exists (λ y, P y = true) l)) as [Hex|Hnex].
  - apply Exists_exists in Hex as (x & Hin & HP).
    destruct (spliceFirst_some P l x Hin HP) as (i & y & Hi & HPy & _ & ->).
    rewrite delete_take_drop.
    rewrite <- (take_drop_middle l i y Hi) at 3.
    rewrite !filter_app, filter_cons_False; [done|].
    intros HQy. apply HQ in HQy. congruence.
  - rewrite spliceFirst_none; [done|].
    apply Forall_forall. intros y Hy.
    destruct (P y) eqn:HPy; [|done].
    destruct Hnex. apply Exists_exists. eauto.
Qed.

End Arrays.

(** [indexOf] is [findIndex] with the test for equality. *)
Lemma indexOf_findIndex `{EqDecision A} (x : A) (l : list A) :
  indexOf x l = findIndex (λ y, bool_decide (y = x)) l.
Proof.
  unfold indexOf, findIndex.
  rewrite (list_find_ext (λ y, y = x) (λ y, bool_decide (y = x) = true)); [done|].
  intros y. by rewrite bool_decide_eq_true.
Qed.

(** With no element twice, taking the first [x] out leaves no [x]. *)
Lemma spliceFirst_NoDup_not_elem `{EqDecision A} (x : A) (l : list A) :
  NoDup l → x ∉ spliceFirst (λ y, bool_decide (y = x)) l.
Proof.
  intros Hnd Hin.
  assert (x ∈ l) as Hl.
  { eapply elem_of_sublist; [exact Hin|]. apply spliceFirst_sublist. }
  destruct (spliceFirst_some (λ y, bool_decide (y = x)) l x Hl)
    as (i & y & Hi & ->%bool_decide_eq_true & _ & Heq);
    [by apply bool_decide_eq_true|].
  rewrite Heq, delete_take_drop in Hin.
  rewrite <- (take_drop_middle l i x Hi) in Hnd.
  apply NoDup_app in Hnd as (_ & Hdisj & Hnd%NoDup_cons).
  apply elem_of_app in Hin as [Hin|Hin].
  - apply (Hdisj x Hin). left.
  - by destruct Hnd.
Qed.

(** The same through a key: with no key twice, taking out the first
    element of key [x] leaves none of that key. *)
Lemma spliceFirst_NoDup_fmap {A} `{EqDecision B} (f : A → B) (x : B)
    (l : list A) :
  NoDup (f <$> l) →
  x ∉ f <$> spliceFirst (λ y, bool_decide (f y = x)) l.
Proof.
  intros Hnd Hin.
  assert (x ∈ f <$> l) as (y0 & Hy0 & Hl)%list_elem_of_fmap.
  { apply list_elem_of_fmap in Hin as (y & -> & Hy).
    apply list_elem_of_fmap. exists y. split; [done|].
    eapply elem_of_sublist; [exact Hy|]. apply spliceFirst_sublist. }
  destruct (spliceFirst_some (λ y, bool_decide (f y = x)) l y0 Hl)
    as (i & y & Hi & Hy%bool_decide_eq_true & _ & Heq);
    [by apply bool_decide_eq_true|].
  rewrite Heq, delete_take_drop, fmap_app in Hin.
  rewrite <- (take_drop_middle l i y Hi), fmap_app, fmap_cons, Hy in Hnd.
  apply NoDup_app in Hnd as (_ & Hdisj & Hnd%NoDup_cons).
  apply elem_of_app in Hin as [Hin|Hin].
  - apply (Hdisj x Hin). left.
  - by destruct Hnd.
Qed.

(** ** [merge] *)

Lemma mergeKey_diag options t s :
  diag_None (mergeKey options) t s = mergeKey options t s.
Proof. by destruct t, s. Qed.


(** A key of [getMerge(options)({}, base, override)]: first [base] is
    copied into the empty target, then [override] is merged in. *)
Lemma lookup_getMerge options (base : object) (override : option object) key :
  getMerge options ∅ [Some base; override] !! key
  = mergeKey options (mergeKey options None (base !! key))
                     (override ≫= (.!! key)).
Proof.
  unfold getMerge. simpl. destruct override as [override|]; simpl.
  - by rewrite !lookup_merge, !mergeKey_diag, lookup_empty.
  - rewrite lookup_merge, mergeKey_diag, lookup_empty.
    by destruct (mergeKey options None (base !! key)).
Qed.



(** ** Running the queue's primitives *)

Lemma bind_Ok {W A B} (m : Eff W A) (k : A → Eff W B) w a w' :
  m w = (Ok a, w') → bind m k w = k a w'.
Proof. unfold bind. by intros ->. Qed.

Lemma bind_Throw {W A B} (m : Eff W A) (k : A → Eff W B) w e w' :
  m w = (Throw e, w') → bind m k w = (Throw e, w').
Proof. unfold bind. by intros ->. Qed.

Lemma bind_assoc {W A B C} (m : Eff W A) (f : A → Eff W B) (g : B → Eff W C) w :
  bind (bind m f) g w = bind m (λ a, bind (f a) g) w.
Proof. unfold bind. by destruct (m w) as [[a|e] w']. Qed.

Lemma getBatchFromItemId_Ok queue itemId batch :
  owner (getState queue) itemId = Some batch →
  getBatchFromItemId itemId queue = (Ok batch, queue).
Proof.
  unfold owner, getBatchFromItemId, getBatchDataFromItemId, bind, readState.
  simpl. intros H.
  destruct (State.items (getState queue) !! itemId) as [item|]; [|done].
  simpl in *.
  destruct (State.batches (getState queue) !! BatchItem.batchId item);
    simplify_eq/=; done.
Qed.

Lemma getBatchFromItemId_Throw queue itemId :
  owner (getState queue) itemId = None →
  ∃ e, getBatchFromItemId itemId queue = (Throw e, queue).
Proof.
  unfold owner, getBatchFromItemId, getBatchDataFromItemId, bind, readState.
  simpl. intros H.
  destruct (State.items (getState queue) !! itemId) as [item|]; simpl in *;
    [|by eexists].
  destruct (State.batches (getState queue) !! BatchItem.batchId item);
    simplify_eq/=; by eexists.
Qed.

(** ** Progress events *)

(** C8. A progress notification for a tracked item stores the notified
    [loaded] and [completed] on exactly that item and then triggers
    item-progress with the updated item of the new snapshot; for an item
    that is not tracked, nothing changes, nothing is triggered and nothing
    is thrown. *)
Theorem onSenderProgress_tracked_or_dropped
    (queue : QueueState) (item : BatchItem.t) (completed loaded : Z) :
  let state := getState queue in
  let id := BatchItem.id item in
  (∀ stateItem, State.items state !! id = Some stateItem →
     ∃ state' updated,
       onSenderProgress item completed loaded queue
       = (Ok tt, mkQueue state'
                   (emitted queue
                    ++ [Trigger ITEM_PROGRESS (ItemPayload (Some updated))]))
       ∧ State.items state' !! id = Some updated
       ∧ BatchItem.loaded updated = loaded
       ∧ BatchItem.completed updated = completed
       ∧ BatchItem.id updated = BatchItem.id stateItem
       ∧ BatchItem.batchId updated = BatchItem.batchId stateItem
       ∧ BatchItem.state updated = BatchItem.state stateItem
       ∧ BatchItem.recycled updated = BatchItem.recycled stateItem
       ∧ BatchItem.previousBatch updated = BatchItem.previousBatch stateItem
       ∧ BatchItem.file updated = BatchItem.file stateItem
       ∧ (∀ other, other ≠ id →
            State.items state' !! other = State.items state !! other)
       ∧ State.itemQueue state' = State.itemQueue state
       ∧ State.currentBatch state' = State.currentBatch state
       ∧ State.batches state' = State.batches state
       ∧ State.activeIds state' = State.activeIds state
       ∧ State.aborts state' = State.aborts state)
  ∧ (State.items state !! id = None →
       onSenderProgress item completed loaded queue = (Ok tt, queue)).
Proof.
  intros state id. subst state id.
  set (state := getState queue). set (id := BatchItem.id item).
  split.
  - intros stateItem Hitem.
    exists (State.set_items
              (alter (BatchItem.set_progress loaded completed) id
                     (State.items state)) state),
           (BatchItem.set_progress loaded completed stateItem).
    assert (alter (BatchItem.set_progress loaded completed) id
                  (State.items state) !! id
            = Some (BatchItem.set_progress loaded completed stateItem)) as Hnew.
    { by rewrite lookup_alter_eq, Hitem. }
    split_and!; try done.
    + unfold onSenderProgress, bind, readState, updateState, trigger.
      cbn beta iota. fold state id. rewrite Hitem.
      rewrite bool_decide_true by eauto.
      cbn [getState emitted State.items State.set_items].
      fold state. by rewrite Hnew.
    + intros other Hne. simpl. by rewrite lookup_alter_ne.
  - intros Hnone.
    unfold onSenderProgress, bind, readState. cbn beta iota. fold state id.
    rewrite Hnone. rewrite bool_decide_false; [done|].
    by intros [? ?].
Qed.

Lemma onSenderProgress_tracked_example :
  State.items (getState Samples.uploading) !! "item-1"
  = Some (Samples.item "item-1" "batch-1" FILE_UPLOADING)
  ∧ ∃ state' updated,
      onSenderProgress (Samples.item "item-1" "batch-1" FILE_UPLOADING) 50 500
                       Samples.uploading
      = (Ok tt, mkQueue state'
                  [Trigger ITEM_PROGRESS (ItemPayload (Some updated))])
      ∧ BatchItem.loaded updated = 500
      ∧ BatchItem.completed updated = 50.
Proof.
  split; [by vm_compute|].
  destruct (onSenderProgress_tracked_or_dropped
              Samples.uploading
              (Samples.item "item-1" "batch-1" FILE_UPLOADING) 50 500)
    as [Htracked _].
  destruct (Htracked (Samples.item "item-1" "batch-1" FILE_UPLOADING))
    as (state' & updated & Hrun & _ & Hloaded & Hcompleted & _);
    [by vm_compute|].
  exists state', updated. by split_and!.
Defined.

(** ** The batch-start gate *)

(** C4, as the spec words it, fails: with a previous batch's id still in
    [currentBatch], a cancelled batch-start leaves that id there;
    [currentBatch] is not unset. *)
Lemma loadNewBatchForItem_cancelled_keeps_previous :
  ∃ then_ queue1,
    loadNewBatchForItem "item-2" Samples.betweenBatches = (Ok then_, queue1)
    ∧ ∃ queue2,
        then_ true queue1 = (Ok false, queue2)
        ∧ State.currentBatch (getState queue2) = Some "batch-1"
        ∧ State.currentBatch (getState queue2) ≠ None.
Proof.
  eexists _, _. split; [by vm_compute|].
  eexists. split_and!; [by vm_compute|by vm_compute|done].
Qed.

(** C4 (amended). For an item of the store whose batch is registered,
    [loadNewBatchForItem] issues the cancellable batch-start interception
    with the item's batch and changes nothing else. When the listeners have
    answered, whatever the queue then holds: on cancellation [currentBatch]
    and the rest of the state stay as they are and the result is false;
    otherwise [currentBatch] becomes the id of the item's batch and the
    result is true. *)
Theorem loadNewBatchForItem_gate
    (queue : QueueState) (itemId : string) (batch : Batch.t) :
  owner (getState queue) itemId = Some batch →
  ∃ then_,
    loadNewBatchForItem itemId queue
    = (Ok then_, mkQueue (getState queue)
                   (emitted queue ++ [RunCancellable BATCH_START batch]))
    ∧ ∀ later : QueueState,
        then_ true later = (Ok false, later)
        ∧ then_ false later
          = (Ok true, mkQueue (State.set_currentBatch (Some (Batch.id batch))
                                                      (getState later))
                        (emitted later))
        ∧ State.currentBatch
            (getState (then_ false later).2) = Some (Batch.id batch)
        ∧ State.currentBatch (getState (then_ true later).2)
          = State.currentBatch (getState later).
Proof.
  intros Howner. exists (loadNewBatchForItem_then batch). split.
  - unfold loadNewBatchForItem.
    erewrite bind_Ok by (by apply getBatchFromItemId_Ok).
    done.
  - intros [state log]. by split_and!.
Qed.

Lemma loadNewBatchForItem_gate_example :
  owner (getState Samples.betweenBatches) "item-2"
  = Some (Batch.mk "batch-2" [Samples.item "item-2" "batch-2" FILE_ADDED]
                   BATCH_ADDED)
  ∧ ∃ then_ queue1,
      loadNewBatchForItem "item-2" Samples.betweenBatches = (Ok then_, queue1)
      ∧ State.currentBatch (getState (then_ false queue1).2) = Some "batch-2"
      ∧ State.currentBatch (getState (then_ true queue1).2) = Some "batch-1".
Proof.
  split; [by vm_compute|].
  destruct (loadNewBatchForItem_gate Samples.betweenBatches "item-2"
              (Batch.mk "batch-2" [Samples.item "item-2" "batch-2" FILE_ADDED]
                        BATCH_ADDED))
    as (then_ & Hrun & Hthen); [by vm_compute|].
  eexists then_, _. split; [exact Hrun|].
  destruct (Hthen (mkQueue (getState Samples.betweenBatches)
                     (emitted Samples.betweenBatches
                      ++ [RunCancellable BATCH_START
                            (Batch.mk "batch-2"
                               [Samples.item "item-2" "batch-2" FILE_ADDED]
                               BATCH_ADDED)])))
    as (_ & _ & Hset & Hkept).
  split; [exact Hset|]. rewrite Hkept. done.
Defined.

(** ** Pending batches *)

(** Under the spec's merge a key the override binds to an explicit
    [undefined] is bound to [undefined] in the outcome, whatever the base
    holds there. *)
Lemma merge_undefined_overwrites (base override : object) key :
  override !! key = Some (JPrim JUndefined) →
  Shared.merge ∅ [Some base; Some override] !! key = Some (JPrim JUndefined).
Proof.
  intros Hkey. unfold Shared.merge. rewrite lookup_getMerge. simpl.
  by rewrite Hkey.
Qed.

(** A defined primitive of the override replaces what the base has. *)
Lemma merge_defined_overwrites options (base override : object) key p :
  override !! key = Some (JPrim p) → p ≠ JUndefined →
  getMerge options ∅ [Some base; Some override] !! key = Some (JPrim p).
Proof.
  intros Hkey Hp. rewrite lookup_getMerge. simpl. rewrite Hkey.
  by destruct p.
Qed.

(** A key the override does not have is left as copied from the base. *)
Lemma merge_absent_keeps options (base override : object) key :
  override !! key = None →
  getMerge options ∅ [Some base; Some override] !! key
  = getMerge options ∅ [Some base; None] !! key.
Proof.
  intros Hkey. rewrite !lookup_getMerge. simpl. by rewrite Hkey.
Qed.

(** A primitive of the base that the override does not mention stays. *)
Lemma merge_absent_keeps_prim (base override : object) key p :
  override !! key = None → base !! key = Some (JPrim p) →
  Shared.merge ∅ [Some base; Some override] !! key = Some (JPrim p).
Proof.
  intros Hkey Hbase. unfold Shared.merge. rewrite lookup_getMerge. simpl.
  rewrite Hkey, Hbase. by destruct p.
Qed.

(** C1. For every entry of the store's batches, [preparePendingForUpload]
    leaves a batch that is not pending as it is, and moves a pending batch
    and each item it lists to the added state, replacing its options by the
    merge of the caller's options over the stored ones. Under the merge as
    the spec words it, a key the caller binds to an explicit [undefined]
    overwrites the stored default rather than being ignored; a defined value
    of the caller replaces the stored one, and a stored primitive the caller
    does not mention stays. *)
Theorem preparePendingForUpload_pending_to_added
    (queue : QueueState) (uploadOptions : option object)
    (batchId : string) (batchData : BatchData.t) :
  State.batches (getState queue) !! batchId = Some batchData →
  let batch := BatchData.batch batchData in
  let stored := BatchData.batchOptions batchData in
  ∃ queue' batchData',
    preparePendingForUpload uploadOptions queue = (Ok tt, queue')
    ∧ emitted queue' = emitted queue
    ∧ State.batches (getState queue') !! batchId = Some batchData'
    ∧ (Batch.state batch ≠ BATCH_PENDING → batchData' = batchData)
    ∧ (Batch.state batch = BATCH_PENDING →
         let batch' := BatchData.batch batchData' in
         let merged := BatchData.batchOptions batchData' in
         Batch.state batch' = BATCH_ADDED
         ∧ Batch.id batch' = Batch.id batch
         ∧ Batch.items batch'
           = map (BatchItem.set_state FILE_ADDED) (Batch.items batch)
         ∧ Forall (λ item, BatchItem.state item = FILE_ADDED)
                  (Batch.items batch')
         ∧ batchItemIds batch' = batchItemIds batch
         ∧ merged = Shared.merge ∅ [Some stored; uploadOptions]
         ∧ (∀ override key,
              uploadOptions = Some override →
              override !! key = Some (JPrim JUndefined) →
              merged !! key = Some (JPrim JUndefined))
         ∧ (∀ override key p,
              uploadOptions = Some override →
              override !! key = Some (JPrim p) → p ≠ JUndefined →
              merged !! key = Some (JPrim p))
         ∧ (∀ override key p,
              uploadOptions = Some override →
              override !! key = None →
              stored !! key = Some (JPrim p) →
              merged !! key = Some (JPrim p))).
Proof.
  intros Hbatch batch stored.
  exists (mkQueue
            (State.set_batches
               (preparePending uploadOptions <$> State.batches (getState queue))
               (getState queue))
            (emitted queue)),
         (preparePending uploadOptions batchData).
  split_and!; [done..| | |].
  - simpl. by rewrite lookup_fmap, Hbatch.
  - intros Hstate. unfold preparePending. by rewrite bool_decide_false.
  - intros Hstate. unfold preparePending. rewrite bool_decide_true by done.
    simpl. split_and!; try done.
    + apply Forall_forall. intros item (item0 & -> & _)%list_elem_of_fmap.
      done.
    + unfold batchItemIds. simpl. rewrite <- list_fmap_compose.
      by apply list_fmap_ext.
    + intros override key -> Hkey. by apply merge_undefined_overwrites.
    + intros override key p -> Hkey Hp.
      by apply merge_defined_overwrites.
    + intros override key p -> Hkey Hstored.
      by apply merge_absent_keeps_prim.
Qed.

Lemma preparePendingForUpload_example :
  ∃ queue' batchData',
    preparePendingForUpload (Some Samples.overrideOptions) Samples.deferred
    = (Ok tt, queue')
    ∧ State.batches (getState queue') !! "batch-1" = Some batchData'
    ∧ Batch.state (BatchData.batch batchData') = BATCH_ADDED
    ∧ Samples.storedOptions !! "method" = Some (JPrim (JStr "POST"))
    ∧ BatchData.batchOptions batchData' !! "autoUpload"
      = Some (JPrim (JBool true))
    ∧ BatchData.batchOptions batchData' !! "method"
      = Some (JPrim JUndefined).
Proof.
  destruct (preparePendingForUpload_pending_to_added
              Samples.deferred (Some Samples.overrideOptions) "batch-1"
              (Samples.batchData "batch-1"
                 [Samples.item "item-1" "batch-1" FILE_PENDING]
                 BATCH_PENDING Samples.storedOptions))
    as (queue' & batchData' & Hrun & _ & Hnew & _ & Hpending);
    [by vm_compute|].
  destruct Hpending as (Hstate & _ & _ & _ & _ & _ & Hundef & Hdef & _);
    [done|].
  exists queue', batchData'. split_and!; [done..| |].
  - by apply (Hdef Samples.overrideOptions "autoUpload" (JBool true)).
  - by apply (Hundef Samples.overrideOptions "method").
Defined.

(** ** Purging a batch *)

Lemma removeItem_itemQueue state item :
  State.itemQueue (removeItem state item)
  = spliceFirst (sameId (BatchItem.id item)) (State.itemQueue state).
Proof.
  unfold removeItem, spliceFirst, sameId. simpl.
  rewrite indexOf_findIndex. by destruct (tilde _).
Qed.

Lemma removeItem_items state item :
  State.items (removeItem state item)
  = delete (BatchItem.id item) (State.items state).
Proof. unfold removeItem. simpl. by destruct (tilde _). Qed.

Lemma removeItem_rest state item :
  State.batches (removeItem state item) = State.batches state
  ∧ State.currentBatch (removeItem state item) = State.currentBatch state
  ∧ State.activeIds (removeItem state item) = State.activeIds state
  ∧ State.aborts (removeItem state item) = State.aborts state.
Proof. unfold removeItem. simpl. by destruct (tilde _). Qed.

Section Purge.
Implicit Types (state : State.t) (l : list BatchItem.t).

Lemma removeItems_rest l state :
  State.batches (foldl removeItem state l) = State.batches state
  ∧ State.currentBatch (foldl removeItem state l) = State.currentBatch state
  ∧ State.activeIds (foldl removeItem state l) = State.activeIds state
  ∧ State.aborts (foldl removeItem state l) = State.aborts state.
Proof.
  revert state. induction l as [|item l IH]; intros state; simpl; [done|].
  destruct (IH (removeItem state item)) as (-> & -> & -> & ->).
  apply removeItem_rest.
Qed.

(** The listed items leave the mapping; the others stay as they are. *)
Lemma removeItems_items l state id :
  State.items (foldl removeItem state l) !! id
  = if decide (id ∈ BatchItem.id <$> l) then None
    else State.items state !! id.
Proof.
  revert state. induction l as [|item l IH]; intros state.
  - cbn [foldl]. destruct (decide _) as [Hin|]; [|done].
    by apply elem_of_nil in Hin.
  - cbn [foldl]. rewrite IH, removeItem_items, fmap_cons.
    destruct (decide (id ∈ BatchItem.id <$> l)) as [Hin|Hnin],
             (decide (id ∈ BatchItem.id item :: (BatchItem.id <$> l)))
               as [Hin'|Hnin']; try done.
    + destruct Hnin'. by right.
    + apply elem_of_cons in Hin' as [->|?]; [apply lookup_delete_eq|done].
    + rewrite lookup_delete_ne; [done|].
      intros Heq. apply Hnin'. rewrite <- Heq. left.
Qed.

(** The pending sequence afterwards: each listed item's first occurrence
    spliced out, in the order the batch lists them. *)
Lemma removeItems_itemQueue l state :
  State.itemQueue (foldl removeItem state l)
  = foldl (λ queue item, spliceFirst (sameId (BatchItem.id item)) queue)
          (State.itemQueue state) l.
Proof.
  revert state. induction l as [|item l IH]; intros state; simpl; [done|].
  by rewrite IH, removeItem_itemQueue.
Qed.

Lemma removeItems_sublist l state :
  State.itemQueue (foldl removeItem state l) `sublist_of` State.itemQueue state.
Proof.
  revert state. induction l as [|item l IH]; intros state; simpl; [done|].
  etrans; [apply IH|]. rewrite removeItem_itemQueue.
  apply spliceFirst_sublist.
Qed.


(** With no id twice in the pending sequence, none of the listed ids is
    left in it. *)
Lemma removeItems_NoDup l state id :
  NoDup (State.itemQueue state) →
  id ∈ BatchItem.id <$> l →
  id ∉ State.itemQueue (foldl removeItem state l).
Proof.
  revert state. induction l as [|item l IH]; intros state Hnd Hin.
  - by apply elem_of_nil in Hin.
  - cbn [foldl]. rewrite fmap_cons in Hin.
    apply elem_of_cons in Hin as [->|Hin].
    + intros Hq. eapply elem_of_sublist in Hq; [|apply removeItems_sublist].
      rewrite removeItem_itemQueue in Hq.
      by apply spliceFirst_NoDup_not_elem in Hq.
    + apply IH; [|done]. rewrite removeItem_itemQueue.
      eapply sublist_NoDup; [exact Hnd|]. apply spliceFirst_sublist.
Qed.

End Purge.

(** ** Cleaning up a finished batch *)

Lemma getBatchFromState_run queue state batchId batchData :
  State.batches state !! batchId = Some batchData →
  getBatchFromState state batchId queue
  = (Ok (BatchData.batch batchData), queue).
Proof. intros Hbatch. unfold getBatchFromState. by rewrite Hbatch. Qed.

Lemma getBatch_run queue batchId batchData :
  State.batches (getState queue) !! batchId = Some batchData →
  getBatch batchId queue = (Ok (BatchData.batch batchData), queue).
Proof.
  intros Hbatch. unfold getBatch, getBatchFromState, bind, readState.
  cbn beta iota. by rewrite Hbatch.
Qed.

Lemma removeBatchItems_run queue batchId batchData :
  State.batches (getState queue) !! batchId = Some batchData →
  removeBatchItems batchId queue
  = (Ok tt, mkQueue (foldl removeItem (getState queue)
                           (Batch.items (BatchData.batch batchData)))
              (emitted queue)).
Proof.
  intros Hbatch. unfold removeBatchItems.
  erewrite bind_Ok by (by apply getBatch_run). done.
Qed.

Lemma triggerUploaderBatchEvent_run queue batchId batchData event :
  State.batches (getState queue) !! batchId = Some batchData →
  triggerUploaderBatchEvent batchId event queue
  = (Ok tt, mkQueue (getState queue)
              (emitted queue
               ++ [Trigger event
                     (BatchPayload (snapshot (getState queue)
                                             (BatchData.batch batchData)))])).
Proof.
  intros Hbatch.
  unfold triggerUploaderBatchEvent, getBatchFromState, bind, readState.
  cbn beta iota. by rewrite Hbatch.
Qed.

Lemma isNewBatchStarting_run queue itemId batch :
  owner (getState queue) itemId = Some batch →
  isNewBatchStarting itemId queue
  = (Ok (bool_decide (State.currentBatch (getState queue)
                      ≠ Some (Batch.id batch))), queue).
Proof.
  intros Howner. unfold isNewBatchStarting.
  erewrite bind_Ok by (by apply getBatchFromItemId_Ok). done.
Qed.

Lemma isBatchFinished_finished queue :
  batchFinished (getState queue) → isBatchFinished queue = (Ok true, queue).
Proof.
  unfold batchFinished, isBatchFinished, bind, readState. cbn beta iota.
  destruct (State.itemQueue (getState queue)) as [|itemId rest]; [done|].
  intros (batch & Howner & Hother).
  rewrite (isNewBatchStarting_run _ _ _ Howner).
  by rewrite bool_decide_true.
Qed.

Lemma isBatchFinished_unfinished queue :
  ¬ batchFinished (getState queue) →
  isBatchFinished queue = (Ok false, queue)
  ∨ ∃ e, isBatchFinished queue = (Throw e, queue).
Proof.
  unfold batchFinished, isBatchFinished, bind, readState. cbn beta iota.
  destruct (State.itemQueue (getState queue)) as [|itemId rest]; [done|].
  intros Hnot.
  destruct (owner (getState queue) itemId) as [batch|] eqn:Howner.
  - left. rewrite (isNewBatchStarting_run _ _ _ Howner).
    rewrite bool_decide_false; [done|]. intros Hother. apply Hnot. eauto.
  - right. unfold isNewBatchStarting.
    destruct (getBatchFromItemId_Throw _ _ Howner) as [e He].
    exists e. by erewrite bind_Throw.
Qed.

Lemma cleanUpFinishedBatch_run queue batchId batchData :
  cleanable (getState queue) batchId batchData →
  cleanUpFinishedBatch queue
  = (Ok tt,
     mkQueue
       (State.set_batches
          (delete batchId (State.batches (getState queue)))
          (foldl removeItem (getState queue)
                 (Batch.items (BatchData.batch batchData))))
       (emitted queue
        ++ [Trigger BATCH_FINISH
              (BatchPayload (snapshot (getState queue)
                                      (BatchData.batch batchData)))])).
Proof.
  intros (Hcurrent & Hset & Hbatch & Hfinished).
  unfold cleanUpFinishedBatch. unfold bind at 1. unfold readState at 1.
  cbn beta iota. rewrite Hcurrent. unfold truthy_string.
  rewrite bool_decide_true by done.
  rewrite bool_decide_true by (rewrite Hbatch; eauto).
  cbn [andb].
  rewrite (bind_Ok _ _ _ _ _ (isBatchFinished_finished queue Hfinished)).
  rewrite (bind_Ok _ _ _ _ _
             (triggerUploaderBatchEvent_run queue batchId batchData
                BATCH_FINISH Hbatch)).
  erewrite bind_Ok by (by eapply removeBatchItems_run).
  unfold removeBatch, updateState. cbn [getState emitted].
  by destruct (removeItems_rest (Batch.items (BatchData.batch batchData))
                 (getState queue)) as (-> & _).
Qed.

Lemma cleanUpFinishedBatch_skip queue :
  (∀ batchId batchData, ¬ cleanable (getState queue) batchId batchData) →
  (cleanUpFinishedBatch queue).2 = queue.
Proof.
  intros Hnot.
  unfold cleanUpFinishedBatch. unfold bind at 1. unfold readState at 1.
  cbn beta iota.
  destruct (State.currentBatch (getState queue)) as [batchId|] eqn:Hcurrent;
    [|done].
  unfold truthy_string.
  destruct (decide (batchId ≠ "")) as [Hset|Hunset];
    [rewrite bool_decide_true by done|by rewrite bool_decide_false].
  destruct (State.batches (getState queue) !! batchId) as [batchData|]
    eqn:Hbatch;
    [rewrite bool_decide_true by eauto
    |by rewrite bool_decide_false by (by intros [? ?])].
  cbn [andb].
  destruct (isBatchFinished_unfinished queue) as [Hrun|[e Hrun]].
  - intros Hfinished. by apply (Hnot batchId batchData).
  - by erewrite bind_Ok by exact Hrun.
  - by erewrite bind_Throw by exact Hrun.
Qed.





(** ** What cleanup leaves in [currentBatch] *)

Lemma find_active_none (l : list BatchItem.t) :
  Forall finalized l →
  find (λ item, negb (bool_decide
                        (BatchItem.state item ∈ ITEM_FINALIZE_STATES))) l
  = None.
Proof.
  induction 1 as [|item l Hitem _ IH]; [done|].
  cbn [find]. by rewrite bool_decide_true.
Qed.

Lemma ensureNonUploadingBatchCleaned_run queue batchId batchData :
  State.batches (getState queue) !! batchId = Some batchData →
  Forall finalized (Batch.items (BatchData.batch batchData)) →
  ensureNonUploadingBatchCleaned batchId queue
  = (Ok tt,
     mkQueue
       (State.set_batches
          (delete batchId (State.batches (getState queue)))
          (foldl removeItem (getState queue)
                 (Batch.items (BatchData.batch batchData))))
       (emitted queue)).
Proof.
  intros Hbatch Hall.
  unfold ensureNonUploadingBatchCleaned.
  rewrite (bind_Ok readState _ queue (getState queue) queue eq_refl).
  rewrite (bind_Ok _ _ _ _ _
             (getBatchFromState_run queue (getState queue) batchId batchData
                                    Hbatch)).
  rewrite find_active_none by done.
  rewrite (bind_Ok _ _ _ _ _ (removeBatchItems_run queue batchId batchData Hbatch)).
  unfold removeBatch, updateState. cbn [getState emitted].
  by destruct (removeItems_rest (Batch.items (BatchData.batch batchData))
                 (getState queue)) as (-> & _).
Qed.

(** C3, as the spec words it, fails: after either cleanup of a batch whose
    only item failed, the batch is gone from the store and [currentBatch]
    still holds its id. *)
Lemma cleanup_leaves_currentBatch :
  State.currentBatch (getState Samples.allFailed) = Some "batch-1"
  ∧ (∃ queue',
       cleanUpFinishedBatch Samples.allFailed = (Ok tt, queue')
       ∧ State.batches (getState queue') !! "batch-1" = None
       ∧ State.currentBatch (getState queue') = Some "batch-1")
  ∧ (∃ queue',
       ensureNonUploadingBatchCleaned "batch-1" Samples.allFailed
       = (Ok tt, queue')
       ∧ State.batches (getState queue') !! "batch-1" = None
       ∧ State.currentBatch (getState queue') = Some "batch-1").
Proof.
  split_and!; [done| |]; eexists; split_and!; by vm_compute.
Qed.

(** C3 (amended). For a batch of the store all of whose items are in a
    finalize state, [ensureNonUploadingBatchCleaned], and
    [cleanUpFinishedBatch] when the batch is the finished current one,
    remove the batch entry and the items it lists from the store;
    [currentBatch] is not touched by either and keeps the value it had. *)
Theorem cleanup_purges_and_keeps_currentBatch
    (queue : QueueState) (batchId : string) (batchData : BatchData.t) :
  let state := getState queue in
  let batch := BatchData.batch batchData in
  State.batches state !! batchId = Some batchData →
  Forall finalized (Batch.items batch) →
  (∃ state',
     ensureNonUploadingBatchCleaned batchId queue
     = (Ok tt, mkQueue state' (emitted queue))
     ∧ State.batches state' !! batchId = None
     ∧ (∀ id, id ∈ batchItemIds batch → State.items state' !! id = None)
     ∧ State.currentBatch state' = State.currentBatch state)
  ∧ (cleanable state batchId batchData →
     ∃ state' triggered,
       cleanUpFinishedBatch queue = (Ok tt, mkQueue state' triggered)
       ∧ State.batches state' !! batchId = None
       ∧ (∀ id, id ∈ batchItemIds batch → State.items state' !! id = None)
       ∧ State.currentBatch state' = State.currentBatch state
       ∧ State.currentBatch state' = Some batchId).
Proof.
  intros state batch Hbatch Hall.
  destruct (removeItems_rest (Batch.items batch) state)
    as (_ & Hcurrent & _).
  split.
  - eexists. split; [by apply ensureNonUploadingBatchCleaned_run|].
    fold state batch. cbn [State.items State.batches State.currentBatch
                            State.set_batches].
    split_and!; [apply lookup_delete_eq| |done].
    intros id Hin. rewrite removeItems_items. by rewrite decide_True.
  - intros Hclean. eexists _, _.
    split; [by apply cleanUpFinishedBatch_run|].
    fold state batch. cbn [State.items State.batches State.currentBatch
                            State.set_batches].
    split_and!; [apply lookup_delete_eq| |done|].
    + intros id Hin. rewrite removeItems_items. by rewrite decide_True.
    + rewrite Hcurrent. by destruct Hclean as (-> & _).
Qed.

Lemma allFailed_cleanable :
  cleanable (getState Samples.allFailed) "batch-1"
    (Samples.batchData "batch-1"
       [Samples.item "item-1" "batch-1" FILE_ERROR] BATCH_UPLOADING ∅).
Proof. split_and!; by vm_compute. Defined.

Lemma cleanup_purges_and_keeps_currentBatch_example :
  (∃ state',
     ensureNonUploadingBatchCleaned "batch-1" Samples.allFailed
     = (Ok tt, mkQueue state' [])
     ∧ State.batches state' !! "batch-1" = None
     ∧ State.currentBatch state' = Some "batch-1")
  ∧ (∃ state' triggered,
       cleanUpFinishedBatch Samples.allFailed = (Ok tt, mkQueue state' triggered)
       ∧ State.batches state' !! "batch-1" = None
       ∧ State.currentBatch state' = Some "batch-1").
Proof.
  destruct (cleanup_purges_and_keeps_currentBatch Samples.allFailed "batch-1"
              (Samples.batchData "batch-1"
                 [Samples.item "item-1" "batch-1" FILE_ERROR]
                 BATCH_UPLOADING ∅))
    as [Hensure Hclean].
  - by vm_compute.
  - apply Forall_singleton. unfold finalized, ITEM_FINALIZE_STATES.
    cbn. by right; left.
  - split.
    + destruct Hensure as (state' & Hrun & Hgone & _ & Hcurrent).
      exists state'. by split_and!.
    + destruct (Hclean allFailed_cleanable)
        as (state' & triggered & Hrun & Hgone & _ & _ & Hcurrent).
      exists state', triggered. by split_and!.
Defined.

(** ** Recycled items *)

(** The updater of [detachRecycledFromPreviousBatch], in one piece: the
    first listed item of that id is spliced out of the batch's list. *)
Lemma detachItem_spliceFirst batchId itemId state :
  detachItem batchId itemId state
  = State.set_batches
      (alter (λ batchData,
                BatchData.set_batch
                  (Batch.set_items
                     (spliceFirst
                        (λ listed, bool_decide (BatchItem.id listed = itemId))
                        (Batch.items (BatchData.batch batchData)))
                     (BatchData.batch batchData))
                  batchData)
             batchId (State.batches state))
      state.
Proof.
  unfold detachItem. f_equal. apply alter_ext. intros batchData _.
  unfold spliceFirst. destruct (tilde _); [done|].
  by destruct batchData as [[? ? ?] ?].
Qed.

Lemma detachItem_unlisted batchId itemId state batchData :
  State.batches state !! batchId = Some batchData →
  itemId ∉ batchItemIds (BatchData.batch batchData) →
  detachItem batchId itemId state = state.
Proof.
  intros Hbatch Hnin. rewrite detachItem_spliceFirst.
  replace (alter _ batchId (State.batches state)) with (State.batches state);
    [by destruct state|].
  apply map_eq. intros key.
  destruct (decide (key = batchId)) as [->|Hne];
    [|by rewrite lookup_alter_ne].
  rewrite lookup_alter_eq, Hbatch. simpl. f_equal.
  rewrite spliceFirst_none; [by destruct batchData as [[? ? ?] ?]|].
  apply Forall_forall. intros listed Hlisted. apply bool_decide_eq_false.
  intros Hid. apply Hnin. unfold batchItemIds. rewrite <- Hid.
  by apply list_elem_of_fmap_2.
Qed.

Lemma detachRecycledFromPreviousBatch_run queue item previousBatch batchData :
  detachable (getState queue) item previousBatch batchData →
  detachRecycledFromPreviousBatch item queue
  = (Ok tt, mkQueue (detachItem previousBatch (BatchItem.id item)
                                (getState queue))
              (emitted queue)).
Proof.
  intros (Hrecycled & Hprevious & Hset & Hbatch & batch & Howner & Hid).
  unfold detachRecycledFromPreviousBatch.
  rewrite (bind_Ok readState _ queue (getState queue) queue eq_refl).
  rewrite Hprevious, Hrecycled. unfold truthy_string.
  rewrite bool_decide_true by done.
  rewrite bool_decide_true by (rewrite Hbatch; eauto).
  cbn [andb].
  rewrite (bind_Ok _ _ _ _ _ (getBatchFromItemId_Ok _ _ _ Howner)).
  rewrite bool_decide_true by done. by rewrite Hid.
Qed.

Lemma detachRecycledFromPreviousBatch_skip queue item :
  (∀ previousBatch batchData,
     ¬ (detachable (getState queue) item previousBatch batchData
        ∧ BatchItem.id item ∈ batchItemIds (BatchData.batch batchData))) →
  (detachRecycledFromPreviousBatch item queue).2 = queue.
Proof.
  intros Hnot. unfold detachRecycledFromPreviousBatch.
  rewrite (bind_Ok readState _ queue (getState queue) queue eq_refl).
  destruct (BatchItem.previousBatch item) as [previousBatch|] eqn:Hprevious;
    [|done].
  destruct (BatchItem.recycled item) eqn:Hrecycled; [|done].
  unfold truthy_string.
  destruct (decide (previousBatch ≠ "")) as [Hset|Hunset];
    [rewrite bool_decide_true by done|by rewrite bool_decide_false].
  destruct (State.batches (getState queue) !! previousBatch) as [batchData|]
    eqn:Hbatch;
    [rewrite bool_decide_true by eauto
    |by rewrite bool_decide_false by (by intros [? ?])].
  cbn [andb].
  destruct (owner (getState queue) (BatchItem.id item)) as [batch|] eqn:Howner.
  - rewrite (bind_Ok _ _ _ _ _ (getBatchFromItemId_Ok _ _ _ Howner)).
    destruct (decide (Batch.id batch = previousBatch)) as [Hid|Hid];
      [rewrite bool_decide_true by done|by rewrite bool_decide_false].
    unfold updateState. cbn [snd]. rewrite Hid.
    rewrite (detachItem_unlisted _ _ _ batchData Hbatch);
      [by destruct queue|].
    intros Hlisted. apply (Hnot previousBatch batchData).
    unfold detachable. split_and!; eauto.
  - destruct (getBatchFromItemId_Throw _ _ Howner) as [e He].
    by rewrite (bind_Throw _ _ _ _ _ He).
Qed.

(** C5, as the spec words it, fails: the recycled item's previous batch is
    in the store and still lists the item, but the store's record of the
    item is already owned by the new batch; nothing is removed. *)
Lemma detachRecycledFromPreviousBatch_already_reattached :
  let item := Samples.recycledItem "item-1" "batch-2" "batch-1" FILE_ADDED in
  BatchItem.recycled item = true
  ∧ BatchItem.previousBatch item = Some "batch-1"
  ∧ (∃ batchData,
       State.batches (getState Samples.reattached) !! "batch-1" = Some batchData
       ∧ BatchItem.id item ∈ batchItemIds (BatchData.batch batchData))
  ∧ detachRecycledFromPreviousBatch item Samples.reattached
    = (Ok tt, Samples.reattached).
Proof.
  split_and!; [done|done| |by vm_compute].
  eexists. split; [by vm_compute|]. cbn. left.
Qed.

(** C5 (amended). When the item is recycled, its [previousBatch] names a
    batch of the store, the store's own record of the item is still owned
    by that batch, and that batch lists the item's id, then
    [detachRecycledFromPreviousBatch] splices the first listed item of that
    id out of the batch's list (the only one when the batch lists no id
    twice) and changes nothing else. In every other case, the one of an
    item whose store record already belongs to a new batch among them, the
    queue is left as it was. *)
Theorem detachRecycledFromPreviousBatch_owned_by_previous
    (queue : QueueState) (item : BatchItem.t) :
  let state := getState queue in
  let sameItem := λ listed, bool_decide (BatchItem.id listed = BatchItem.id item) in
  (∀ previousBatch batchData,
     detachable state item previousBatch batchData →
     BatchItem.id item ∈ batchItemIds (BatchData.batch batchData) →
     let batch := BatchData.batch batchData in
     ∃ state' items',
       detachRecycledFromPreviousBatch item queue
       = (Ok tt, mkQueue state' (emitted queue))
       ∧ State.batches state'
         = <[previousBatch :=
               BatchData.mk (Batch.mk (Batch.id batch) items' (Batch.state batch))
                            (BatchData.batchOptions batchData)]>
             (State.batches state)
       ∧ items' = spliceFirst sameItem (Batch.items batch)
       ∧ S (length items') = length (Batch.items batch)
       ∧ items' `sublist_of` Batch.items batch
       ∧ filter (λ listed, BatchItem.id listed ≠ BatchItem.id item) items'
         = filter (λ listed, BatchItem.id listed ≠ BatchItem.id item)
                  (Batch.items batch)
       ∧ (NoDup (batchItemIds batch) →
          BatchItem.id item ∉ BatchItem.id <$> items')
       ∧ State.items state' = State.items state
       ∧ State.itemQueue state' = State.itemQueue state
       ∧ State.currentBatch state' = State.currentBatch state
       ∧ State.activeIds state' = State.activeIds state
       ∧ State.aborts state' = State.aborts state)
  ∧ ((∀ previousBatch batchData,
        ¬ (detachable state item previousBatch batchData
           ∧ BatchItem.id item ∈ batchItemIds (BatchData.batch batchData))) →
     (detachRecycledFromPreviousBatch item queue).2 = queue).
Proof.
  intros state sameItem. split.
  - intros previousBatch batchData Hdetachable Hlisted batch.
    pose proof Hdetachable as (_ & _ & _ & Hbatch & _).
    apply list_elem_of_fmap in Hlisted as (listed & Hid & Hlisted).
    assert (sameItem listed = true) as Hsame.
    { by apply bool_decide_eq_true. }
    exists (detachItem previousBatch (BatchItem.id item) state),
           (spliceFirst sameItem (Batch.items batch)).
    split;
      [exact (detachRecycledFromPreviousBatch_run queue item previousBatch
                batchData Hdetachable)|].
    rewrite detachItem_spliceFirst. fold state sameItem.
    cbn [State.items State.itemQueue State.batches State.currentBatch
         State.activeIds State.aborts State.set_batches].
    split_and!; try done.
    + apply map_eq. intros key.
      destruct (decide (key = previousBatch)) as [->|Hne].
      * by rewrite lookup_alter_eq, lookup_insert_eq, Hbatch.
      * by rewrite lookup_alter_ne, lookup_insert_ne.
    + by eapply spliceFirst_length.
    + apply spliceFirst_sublist.
    + apply spliceFirst_filter. intros other Hother.
      by apply bool_decide_eq_false.
    + intros Hnd. by apply spliceFirst_NoDup_fmap.
  - apply detachRecycledFromPreviousBatch_skip.
Qed.

Lemma retrying_detachable :
  detachable (getState Samples.retrying)
    (Samples.recycledItem "item-1" "batch-2" "batch-1" FILE_ADDED) "batch-1"
    (Samples.batchData "batch-1"
       [Samples.item "item-1" "batch-1" FILE_ABORTED;
        Samples.item "item-3" "batch-1" FILE_UPLOADING]
       BATCH_UPLOADING ∅).
Proof.
  split_and!; [done|done|done|by vm_compute|].
  eexists. split; by vm_compute.
Defined.

Lemma detachRecycledFromPreviousBatch_example :
  detachable (getState Samples.retrying)
    (Samples.recycledItem "item-1" "batch-2" "batch-1" FILE_ADDED) "batch-1"
    (Samples.batchData "batch-1"
       [Samples.item "item-1" "batch-1" FILE_ABORTED;
        Samples.item "item-3" "batch-1" FILE_UPLOADING]
       BATCH_UPLOADING ∅)
  ∧ ∃ state' items',
      detachRecycledFromPreviousBatch
        (Samples.recycledItem "item-1" "batch-2" "batch-1" FILE_ADDED)
        Samples.retrying
      = (Ok tt, mkQueue state' [])
      ∧ State.batches state' !! "batch-1"
        = Some (Samples.batchData "batch-1" items' BATCH_UPLOADING ∅)
      ∧ items' = [Samples.item "item-3" "batch-1" FILE_UPLOADING].
Proof.
  split; [exact retrying_detachable|].
  destruct (detachRecycledFromPreviousBatch_owned_by_previous
              Samples.retrying
              (Samples.recycledItem "item-1" "batch-2" "batch-1" FILE_ADDED))
    as [Hdetach _].
  destruct (Hdetach _ _ retrying_detachable)
    as (state' & items' & Hrun & Hbatches & Hitems & _).
  { cbn. left. }
  exists state', items'. split_and!; [exact Hrun| |].
  - rewrite Hbatches. by rewrite lookup_insert_eq.
  - rewrite Hitems. by vm_compute.
Defined.

(** ** Sending one chunk *)

Section SendChunkProperties.
Import SendChunk.

Variable getChunkDataFromFile : File.t → Z → Z → option Blob.t.
Variable xhrSend : list ChunkItem → option string → object → SendResult.
Variable transportAbort : nat → bool.

Implicit Types (w : ChunkedState) (chunk fresh : Chunk.t) (item : BatchItem.t).

(** [uploadChunkWithUpdatedData] up to its [await] leaves the chunked state
    alone and issues exactly the chunk-start interception. *)
Lemma uploadChunkWithUpdatedData_run chunk item w :
  ∃ awaited payload,
    uploadChunkWithUpdatedData chunk item w
    = (Ok awaited, mkChunked (getState w) (effects w ++ [TriggerUpdater payload]))
    ∧ startedWith w chunk item awaited payload.
Proof.
  eexists _, _. split.
  { unfold uploadChunkWithUpdatedData, bind, readChunked, perform, ret.
    cbn beta iota zeta. reflexivity. }
  unfold startedWith. cbn. split_and!; try done. by rewrite lookup_insert_eq.
Qed.

Lemma sendChunk_sendFresh chunk item w :
  sendChunk getChunkDataFromFile chunk item w
  = match Chunk.data chunk with
    | Some _ => sendFresh chunk item w
    | None =>
        match freshChunk w chunk with
        | Some fresh =>
            sendFresh chunk item (sliced getChunkDataFromFile w chunk fresh item)
        | None => (Throw (TypeError "data"), w)
        end
    end.
Proof.
  unfold sendChunk, freshChunk.
  destruct (Chunk.data chunk) as [data|]; [done|].
  unfold bind at 1. unfold updateChunk. unfold bind at 1.
  unfold readChunked at 1. cbn beta iota. unfold bind at 1.
  destruct (ChunkedData.chunks (getState w) !! Chunk.index chunk)
    as [fresh|]; reflexivity.
Qed.

Lemma sendFresh_run chunk item w :
  match freshChunk w chunk with
  | None => sendFresh chunk item w = (Throw (TypeError "data"), w)
  | Some fresh =>
      match Chunk.data fresh with
      | None =>
          sendFresh chunk item w
          = (Throw (ChunkedSendError "chunk failure - failed to slice"), w)
      | Some _ =>
          ∃ awaited payload,
            sendFresh chunk item w
            = (Ok (mkSending (Awaiting awaited) [ThenRequest] None
                             "chunk-passthrough-sender"),
               mkChunked (getState w) (effects w ++ [TriggerUpdater payload]))
            ∧ startedWith w fresh item awaited payload
      end
  end.
Proof.
  unfold sendFresh, freshChunk.
  rewrite (bind_Ok (getFreshChunk chunk) _ w
             (ChunkedData.chunks (getState w) !! Chunk.index chunk) w eq_refl).
  destruct (ChunkedData.chunks (getState w) !! Chunk.index chunk)
    as [fresh|]; [|reflexivity].
  rewrite (bind_Ok (prop_of "data" (Some fresh)) _ w fresh w eq_refl).
  destruct (Chunk.data fresh) as [data|]; [|reflexivity].
  destruct (uploadChunkWithUpdatedData_run fresh item w)
    as (awaited & payload & Hrun & Hstarted).
  exists awaited, payload. split; [|done].
  by rewrite (bind_Ok _ _ _ _ _ Hrun).
Qed.

(** Whatever [sendFresh] comes to, it slices nothing and leaves the chunked
    state as it found it. *)
Lemma sendFresh_no_slicing chunk item w :
  getState (sendFresh chunk item w).2 = getState w
  ∧ ∃ new, effects (sendFresh chunk item w).2 = effects w ++ new
           ∧ noSlicing new.
Proof.
  pose proof (sendFresh_run chunk item w) as Hrun.
  destruct (freshChunk w chunk) as [fresh|];
    [destruct (Chunk.data fresh) as [data|]|].
  - destruct Hrun as (awaited & payload & -> & _). split; [done|].
    exists [TriggerUpdater payload]. split; [done|].
    intros file start end_ Hin%list_elem_of_singleton. discriminate Hin.
  - rewrite Hrun. split; [done|]. exists []. split; [by rewrite app_nil_r|].
    intros file start end_ Hin. by apply elem_of_nil in Hin.
  - rewrite Hrun. split; [done|]. exists []. split; [by rewrite app_nil_r|].
    intros file start end_ Hin. by apply elem_of_nil in Hin.
Qed.

Lemma freshChunk_sliced chunk fresh item w :
  freshChunk w chunk = Some fresh →
  freshChunk (sliced getChunkDataFromFile w chunk fresh item) chunk
  = Some (Chunk.set_data
            (getChunkDataFromFile (BatchItem.file item)
                                  (Chunk.start chunk) (Chunk.end_ chunk))
            fresh).
Proof.
  unfold freshChunk, sliced. cbn. intros Hfresh.
  apply list_lookup_insert_eq. by eapply lookup_lt_Some.
Qed.

(** C2 (amended). When the chunk handed to [sendChunk] has no data and
    slicing the item's file over the chunk's byte range yields none,
    [sendChunk] throws [ChunkedSendError] to its caller, synchronously: it
    returns no send result, rejected or otherwise, and neither the
    chunk-start interception nor a network call is issued. *)
Theorem sendChunk_unsliceable_throws chunk fresh item w :
  freshChunk w chunk = Some fresh →
  Chunk.data chunk = None →
  getChunkDataFromFile (BatchItem.file item)
                       (Chunk.start chunk) (Chunk.end_ chunk) = None →
  sendChunk getChunkDataFromFile chunk item w
  = (Throw (ChunkedSendError "chunk failure - failed to slice"),
     sliced getChunkDataFromFile w chunk fresh item)
  ∧ (∀ sending w', sendChunk getChunkDataFromFile chunk item w ≠ (Ok sending, w'))
  ∧ effects (sendChunk getChunkDataFromFile chunk item w).2
    = effects w ++ [SliceFile (BatchItem.file item)
                              (Chunk.start chunk) (Chunk.end_ chunk)].
Proof.
  intros Hfresh Hdata Hslice.
  assert (sendChunk getChunkDataFromFile chunk item w
          = (Throw (ChunkedSendError "chunk failure - failed to slice"),
             sliced getChunkDataFromFile w chunk fresh item)) as Hrun.
  { rewrite sendChunk_sendFresh, Hdata, Hfresh.
    pose proof (sendFresh_run chunk item
                  (sliced getChunkDataFromFile w chunk fresh item)) as Hsend.
    rewrite (freshChunk_sliced _ _ _ _ Hfresh), Hslice in Hsend.
    exact Hsend. }
  rewrite Hrun. by split_and!.
Qed.

(** C10. [sendChunk] slices the file only when the chunk it is handed has
    no data: with data present nothing is sliced and the chunked state is
    left as it is; without, the file is sliced once, over the byte range of
    the chunk, and the slice is stored on the state's chunk. Whenever
    [sendChunk] returns, what it goes on with (the interception's chunk
    fields, the item to send, the Content-Range header) comes from the chunk
    read back from the state, not from the chunk it was handed. *)
Theorem sendChunk_slices_once_sends_fresh chunk item w :
  let after := (sendChunk getChunkDataFromFile chunk item w).2 in
  (∀ data, Chunk.data chunk = Some data →
     getState after = getState w
     ∧ ∃ new, effects after = effects w ++ new ∧ noSlicing new)
  ∧ (∀ fresh, Chunk.data chunk = None → freshChunk w chunk = Some fresh →
       freshChunk after chunk
       = Some (Chunk.set_data
                 (getChunkDataFromFile (BatchItem.file item)
                                       (Chunk.start chunk) (Chunk.end_ chunk))
                 fresh)
       ∧ ∃ new,
           effects after
           = effects w ++ SliceFile (BatchItem.file item)
                                    (Chunk.start chunk) (Chunk.end_ chunk)
                          :: new
           ∧ noSlicing new)
  ∧ (∀ sending w',
       sendChunk getChunkDataFromFile chunk item w = (Ok sending, w') →
       ∃ fresh data awaited payload before,
         freshChunk w' chunk = Some fresh
         ∧ Chunk.data fresh = Some data
         ∧ sending = mkSending (Awaiting awaited) [ThenRequest] None
                               "chunk-passthrough-sender"
         ∧ effects w' = before ++ [TriggerUpdater payload]
         ∧ startedWith w' fresh item awaited payload).
Proof.
  intros after. subst after. rewrite sendChunk_sendFresh. split_and!.
  - intros data ->. apply sendFresh_no_slicing.
  - intros fresh -> Hfresh. rewrite Hfresh.
    destruct (sendFresh_no_slicing chunk item
                (sliced getChunkDataFromFile w chunk fresh item))
      as (Hstate & new & Heffects & Hnew).
    split.
    + unfold freshChunk in *. rewrite Hstate.
      by apply (freshChunk_sliced chunk fresh item w).
    + exists new. split; [|done]. rewrite Heffects. cbn.
      by rewrite <- app_assoc.
  - assert (∀ w0 sending w',
              sendFresh chunk item w0 = (Ok sending, w') →
              ∃ fresh data awaited payload,
                freshChunk w' chunk = Some fresh
                ∧ Chunk.data fresh = Some data
                ∧ sending = mkSending (Awaiting awaited) [ThenRequest] None
                                      "chunk-passthrough-sender"
                ∧ effects w' = effects w0 ++ [TriggerUpdater payload]
                ∧ startedWith w' fresh item awaited payload) as Hsent.
    { intros w0 sending w' Hrun.
      pose proof (sendFresh_run chunk item w0) as Hcases.
      destruct (freshChunk w0 chunk) as [fresh|] eqn:Hfresh;
        [destruct (Chunk.data fresh) as [data|] eqn:Hdata|];
        [|congruence..].
      destruct Hcases as (awaited & payload & Hrun' & Hstarted).
      rewrite Hrun' in Hrun. injection Hrun as <- <-.
      exists fresh, data, awaited, payload. by split_and!. }
    intros sending w' Hrun.
    destruct (Chunk.data chunk) as [data|].
    + destruct (Hsent _ _ _ Hrun)
        as (fresh & data' & awaited & payload & ? & ? & ? & ? & ?).
      by exists fresh, data', awaited, payload, (effects w).
    + destruct (freshChunk w chunk) as [fresh0|]; [|congruence].
      destruct (Hsent _ _ _ Hrun)
        as (fresh & data' & awaited & payload & ? & ? & ? & ? & ?).
      by eexists fresh, data', awaited, payload, _.
Qed.



(** ** Aborting a chunk *)

Lemma callAbort_run (f : AbortFn) w :
  ∃ answer,
    callAbort transportAbort f w
    = (Ok answer, mkChunked (getState w) (effects w ++ [CallAbort f])).
Proof. by eexists. Qed.

Lemma run_callback_run result sending callback w :
  ∃ sending' w',
    run_callback transportAbort result sending callback w = (Ok sending', w')
    ∧ chunkXhrRequest sending' = chunkXhrRequest sending
    ∧ callbacks sending' = callbacks sending
    ∧ getState w' = getState w
    ∧ effects w'
      = effects w ++ match callback with
                     | ThenAbort => [CallAbort (abort result)]
                     | ThenRequest => []
                     end.
Proof.
  destruct callback; eexists _, _; (split; [reflexivity|]); cbn;
    split_and!; try done.
  by rewrite app_nil_r.
Qed.

Lemma run_callbacks_run result sending (l : list Callback) w :
  ∃ sending' w' new,
    run_callbacks transportAbort result sending l w = (Ok sending', w')
    ∧ chunkXhrRequest sending' = chunkXhrRequest sending
    ∧ callbacks sending' = callbacks sending
    ∧ getState w' = getState w
    ∧ effects w' = effects w ++ new.
Proof.
  revert sending w. induction l as [|callback l IH]; intros sending w.
  - exists sending, w, []. by rewrite app_nil_r.
  - destruct (run_callback_run result sending callback w)
      as (sending1 & w1 & Hrun1 & Hreq1 & Hcb1 & Hstate1 & Heff1).
    destruct (IH sending1 w1)
      as (sending2 & w2 & new & Hrun2 & Hreq2 & Hcb2 & Hstate2 & Heff2).
    eexists sending2, w2, _. cbn [run_callbacks].
    rewrite (bind_Ok _ _ _ _ _ Hrun1). split; [exact Hrun2|].
    split_and!; [congruence..|].
    rewrite Heff2, Heff1, <- app_assoc. reflexivity.
Qed.

Lemma run_callbacks_app result sending (l1 l2 : list Callback) w :
  run_callbacks transportAbort result sending (l1 ++ l2) w
  = bind (run_callbacks transportAbort result sending l1)
         (λ sending, run_callbacks transportAbort result sending l2) w.
Proof.
  revert sending w. induction l1 as [|callback l1 IH]; intros sending w.
  - done.
  - cbn [app run_callbacks]. rewrite bind_assoc.
    destruct (run_callback_run result sending callback w)
      as (sending1 & w1 & Hrun1 & _).
    rewrite !(bind_Ok _ _ _ _ _ Hrun1). apply IH.
Qed.

Lemma uploadChunkWithUpdatedData_resume_run awaited updatedData w :
  ∃ result w',
    uploadChunkWithUpdatedData_resume xhrSend awaited updatedData w
    = (Ok result, w').
Proof.
  unfold uploadChunkWithUpdatedData_resume.
  destruct updatedData; by eexists _, _.
Qed.

(** C9. The [abort] of what [sendChunk] returns answers true at once,
    whatever the state of the send. Once the transport handle exists
    ([chunkXhrRequest] is fulfilled), it calls the [abort] of that handle.
    Before that, the call is kept with the pending promise, and when the
    listeners have answered and the handle exists, that handle's [abort] is
    called, as the last of the callbacks then run. *)
Theorem sending_abort_forwarded_or_queued (sending : Sending) w :
  (∃ sending' w', sending_abort transportAbort sending w
                  = (Ok (true, sending'), w'))
  ∧ (∀ result,
       chunkXhrRequest sending = Fulfilled result →
       sending_abort transportAbort sending w
       = (Ok (true, sending),
          mkChunked (getState w) (effects w ++ [CallAbort (abort result)])))
  ∧ (∀ awaited,
       chunkXhrRequest sending = Awaiting awaited →
       ∃ sending',
         sending_abort transportAbort sending w = (Ok (true, sending'), w)
         ∧ chunkXhrRequest sending' = Awaiting awaited
         ∧ callbacks sending' = callbacks sending ++ [ThenAbort]
         ∧ ∀ updatedData later,
             ∃ result settled later' before,
               (uploadChunkWithUpdatedData_resume xhrSend awaited updatedData
                                                  later).1 = Ok result
               ∧ settle xhrSend transportAbort updatedData sending' later
                 = (Ok settled, later')
               ∧ chunkXhrRequest settled = Fulfilled result
               ∧ callbacks settled = []
               ∧ effects later' = before ++ [CallAbort (abort result)]).
Proof.
  split_and!.
  - unfold sending_abort. destruct (chunkXhrRequest sending) as [| result |].
    + by eexists _, _.
    + destruct (run_callback_run result sending ThenAbort w)
        as (sending' & w' & Hrun & _).
      exists sending', w'. by rewrite (bind_Ok _ _ _ _ _ Hrun).
    + by eexists _, _.
  - intros result Hfulfilled. unfold sending_abort. by rewrite Hfulfilled.
  - intros awaited Hawaiting. unfold sending_abort. rewrite Hawaiting.
    eexists. split; [reflexivity|]. cbn [chunkXhrRequest callbacks].
    split_and!; [done..|].
    intros updatedData later.
    destruct (uploadChunkWithUpdatedData_resume_run awaited updatedData later)
      as (result & later1 & Hresume).
    unfold settle. cbn [chunkXhrRequest callbacks sending_request
                        sending_senderType].
    rewrite (bind_Ok _ _ _ _ _ Hresume), run_callbacks_app.
    set (fulfilled := mkSending (Fulfilled result) [] (sending_request sending)
                                (sending_senderType sending)).
    destruct (run_callbacks_run result fulfilled (callbacks sending) later1)
      as (sending2 & later2 & new & Hrun2 & Hreq2 & Hcb2 & _ & _).
    rewrite (bind_Ok _ _ _ _ _ Hrun2).
    destruct (run_callback_run result sending2 ThenAbort later2)
      as (sending3 & later3 & Hrun3 & Hreq3 & Hcb3 & _ & Heff3).
    exists result, sending3, later3, (effects later2).
    split_and!.
    + by rewrite Hresume.
    + cbn [run_callbacks]. by rewrite (bind_Ok _ _ _ _ _ Hrun3).
    + by rewrite Hreq3, Hreq2.
    + by rewrite Hcb3, Hcb2.
    + exact Heff3.
Qed.

End SendChunkProperties.

(** ** The chunked sender on the sample upload *)

(** C2, as the spec words it, fails: with a chunk that cannot be sliced,
    [sendChunk] does not return a send result at all; it throws. *)
Lemma sendChunk_throws_synchronously :
  let item := Samples.item "item-1" "batch-1" FILE_UPLOADING in
  Chunk.data Samples.chunk0 = None
  ∧ Samples.noSlice (BatchItem.file item) 0 500 = None
  ∧ (∃ w', SendChunk.sendChunk Samples.noSlice Samples.chunk0 item
                               Samples.chunked
           = (Throw (ChunkedSendError "chunk failure - failed to slice"), w'))
  ∧ ¬ (∃ sending w',
         SendChunk.sendChunk Samples.noSlice Samples.chunk0 item Samples.chunked
         = (Ok sending, w')).
Proof.
  split_and!; [done|done|by eexists; vm_compute|].
  intros (sending & w' & Hrun). vm_compute in Hrun. discriminate Hrun.
Qed.

Lemma sendChunk_unsliceable_example :
  let item := Samples.item "item-1" "batch-1" FILE_UPLOADING in
  freshChunk Samples.chunked Samples.chunk0 = Some Samples.chunk0
  ∧ Chunk.data Samples.chunk0 = None
  ∧ Samples.noSlice (BatchItem.file item) 0 500 = None
  ∧ ∃ w', SendChunk.sendChunk Samples.noSlice Samples.chunk0 item
                              Samples.chunked
          = (Throw (ChunkedSendError "chunk failure - failed to slice"), w')
          ∧ SendChunk.effects w' = [SendChunk.SliceFile Samples.flower 0 500].
Proof.
  intros item. split_and!; [done..|].
  destruct (sendChunk_unsliceable_throws Samples.noSlice Samples.chunk0
              Samples.chunk0 item Samples.chunked)
    as (Hrun & _ & Heffects); [done..|].
  eexists. split; [exact Hrun|]. by vm_compute.
Defined.

Lemma sendChunk_fresh_example :
  let item := Samples.item "item-1" "batch-1" FILE_UPLOADING in
  Chunk.attempt Samples.chunk1_stale = 0
  ∧ ∃ sending w' payload before,
      SendChunk.sendChunk Samples.slices Samples.chunk1_stale item
                          Samples.chunked
      = (Ok sending, w')
      ∧ SendChunk.getState w' = SendChunk.getState Samples.chunked
      ∧ SendChunk.effects w' = before ++ [SendChunk.TriggerUpdater payload]
      ∧ SendChunk.meta_attempt (SendChunk.ev_chunk payload) = 1.
Proof.
  intros item. split; [done|].
  destruct (sendChunk_slices_once_sends_fresh Samples.slices
              Samples.chunk1_stale item Samples.chunked)
    as (Hkept & _ & Hfresh).
  assert (∃ sending w',
            SendChunk.sendChunk Samples.slices Samples.chunk1_stale item
                                Samples.chunked
            = (Ok sending, w')) as (sending & w' & Hrun).
  { eexists _, _. vm_compute. reflexivity. }
  destruct (Hkept (Blob.mk 500 "flower.jpg") eq_refl) as (Hstate & _).
  rewrite Hrun in Hstate. cbn [snd] in Hstate.
  destruct (Hfresh sending w' Hrun)
    as (fresh & data & awaited & payload & before
        & Hread & _ & _ & Heffects & Hstarted).
  unfold freshChunk in Hread. rewrite Hstate in Hread.
  cbn in Hread. injection Hread as <-.
  destruct Hstarted as (_ & _ & _ & _ & Hmeta & _).
  exists sending, w', payload, before.
  split_and!; [done..|]. by rewrite Hmeta.
Defined.


Lemma sending_abort_example :
  ∃ queued,
    SendChunk.sending_abort Samples.xhrAbort Samples.waiting Samples.chunked
    = (Ok (true, queued), Samples.chunked)
    ∧ ∃ settled later,
        SendChunk.settle Samples.xhr Samples.xhrAbort SendChunk.UUndefined
                         queued Samples.chunked
        = (Ok settled, later)
        ∧ ∃ before,
            SendChunk.effects later
            = before ++ [SendChunk.CallAbort (SendChunk.abortTransport 7)].
Proof.
  destruct (sending_abort_forwarded_or_queued
              Samples.xhr Samples.xhrAbort Samples.waiting Samples.chunked)
    as (_ & _ & Hqueued).
  destruct (Hqueued Samples.awaited eq_refl)
    as (queued & Hrun & _ & _ & Hlater).
  exists queued. split; [exact Hrun|].
  destruct (Hlater SendChunk.UUndefined Samples.chunked)
    as (result & settled & later & before & Hresult & Hsettle & _ & _ & Heffects).
  exists settled, later. split; [exact Hsettle|].
  exists before. rewrite Heffects. do 3 f_equal.
  cbn in Hresult. by injection Hresult as <-.
Defined.

(* ===================================================================== *)
(** * Further properties *)
(* ===================================================================== *)

(** ** Submitting a batch *)

Lemma State_eq (s1 s2 : State.t) :
  State.itemQueue s1 = State.itemQueue s2 →
  State.currentBatch s1 = State.currentBatch s2 →
  State.batches s1 = State.batches s2 →
  State.items s1 = State.items s2 →
  State.activeIds s1 = State.activeIds s2 →
  State.aborts s1 = State.aborts s2 →
  s1 = s2.
Proof. destruct s1, s2. simpl. by intros -> -> -> -> -> ->. Qed.

Lemma forEach_add_run (l : list BatchItem.t) queue :
  forEach add l queue
  = (Ok tt, mkQueue (foldl added (getState queue) l) (emitted queue)).
Proof.
  revert queue. induction l as [|item l IH]; intros queue.
  - by destruct queue.
  - cbn [forEach foldl].
    rewrite (bind_Ok (add item) _ queue tt
               (mkQueue (added (getState queue) item) (emitted queue))
               eq_refl).
    by rewrite IH.
Qed.

Section Added.
Implicit Types (state : State.t) (l : list BatchItem.t).

Lemma added_all_rest l state :
  State.batches (foldl added state l) = State.batches state
  ∧ State.currentBatch (foldl added state l) = State.currentBatch state
  ∧ State.activeIds (foldl added state l) = State.activeIds state
  ∧ State.aborts (foldl added state l) = State.aborts state.
Proof.
  revert state. induction l as [|item l IH]; intros state; [done|].
  cbn [foldl]. by destruct (IH (added state item)) as (-> & -> & -> & ->).
Qed.

Lemma added_all_itemQueue l state :
  State.itemQueue (foldl added state l)
  = State.itemQueue state ++ (BatchItem.id <$> l).
Proof.
  revert state. induction l as [|item l IH]; intros state.
  - cbn. by rewrite app_nil_r.
  - cbn [foldl]. rewrite IH, fmap_cons. cbn. by rewrite <- app_assoc.
Qed.

Lemma added_all_other l state id :
  id ∉ BatchItem.id <$> l →
  State.items (foldl added state l) !! id = State.items state !! id.
Proof.
  revert state. induction l as [|item l IH]; intros state Hnin; [done|].
  rewrite fmap_cons in Hnin. apply not_elem_of_cons in Hnin as [Hne Hnin].
  cbn [foldl]. rewrite IH by done. cbn. by rewrite lookup_insert_ne.
Qed.

Lemma added_all_listed l state item :
  NoDup (BatchItem.id <$> l) → item ∈ l →
  State.items (foldl added state l) !! BatchItem.id item = Some item.
Proof.
  revert state. induction l as [|first l IH]; intros state Hnd Hin.
  - by apply elem_of_nil in Hin.
  - rewrite fmap_cons in Hnd. apply NoDup_cons in Hnd as [Hfirst Hnd].
    cbn [foldl]. apply elem_of_cons in Hin as [->|Hin].
    + rewrite added_all_other by done. cbn. apply lookup_insert_eq.
    + by apply IH.
Qed.

End Added.

(** Splicing out an id that is pending only behind [pending]. *)
Lemma spliceFirst_behind (id : string) (pending rest : list string) :
  id ∉ pending →
  spliceFirst (sameId id) (pending ++ id :: rest) = pending ++ rest.
Proof.
  intros Hnin. unfold spliceFirst, findIndex.
  rewrite list_find_app_r.
  - cbn. rewrite decide_True by (unfold sameId; by apply bool_decide_eq_true).
    cbn. rewrite tilde_of_nat, splice1_of_nat. apply delete_middle.
  - apply list_find_None, Forall_forall. intros y Hy Hsame.
    apply bool_decide_eq_true in Hsame as ->. done.
Qed.

Lemma spliceFirst_all_behind (ids pending : list string) :
  NoDup ids → (∀ id, id ∈ ids → id ∉ pending) →
  foldl (λ pending id, spliceFirst (sameId id) pending) (pending ++ ids) ids
  = pending.
Proof.
  induction ids as [|id ids IH]; intros Hnd Hfresh.
  - by rewrite app_nil_r.
  - apply NoDup_cons in Hnd as [Hid Hnd]. cbn [foldl].
    rewrite spliceFirst_behind by (apply Hfresh; left).
    apply IH; [done|]. intros id' Hin. apply Hfresh. by right.
Qed.

(** [uploadBatch] hands the scheduler a queue in which the batch is
    registered under its id and its items are pending behind everything
    that was pending, in the order the batch lists them, each tracked under
    its id; nothing else of the state has changed and nothing was
    triggered. A store whose pending ids were all tracked stays so. *)
Theorem uploadBatch_enqueues_in_order
    (processQueueNext : Q unit) (batch : Batch.t) (batchOptions : object)
    (queue : QueueState) :
  let state := getState queue in
  ∃ state',
    uploadBatch processQueueNext batch batchOptions queue
    = processQueueNext (mkQueue state' (emitted queue))
    ∧ State.batches state'
      = <[Batch.id batch := BatchData.mk batch batchOptions]>
          (State.batches state)
    ∧ State.itemQueue state' = State.itemQueue state ++ batchItemIds batch
    ∧ (NoDup (batchItemIds batch) →
       ∀ item, item ∈ Batch.items batch →
               State.items state' !! BatchItem.id item = Some item)
    ∧ (∀ id, id ∈ batchItemIds batch → is_Some (State.items state' !! id))
    ∧ (∀ id, id ∉ batchItemIds batch →
             State.items state' !! id = State.items state !! id)
    ∧ State.currentBatch state' = State.currentBatch state
    ∧ State.activeIds state' = State.activeIds state
    ∧ State.aborts state' = State.aborts state
    ∧ (tracked state → tracked state').
Proof.
  intros state.
  exists (foldl added (registered state batch batchOptions) (Batch.items batch)).
  assert (∀ id, id ∈ batchItemIds batch →
            is_Some (State.items
                       (foldl added (registered state batch batchOptions)
                              (Batch.items batch)) !! id)) as Hlisted.
  { unfold batchItemIds. generalize (registered state batch batchOptions).
    induction (Batch.items batch) as [|item l IH]; intros s id Hin.
    - by apply elem_of_nil in Hin.
    - cbn [foldl]. destruct (decide (id ∈ BatchItem.id <$> l)) as [Hl|Hl].
      + by apply IH.
      + rewrite added_all_other by done.
        rewrite fmap_cons in Hin. apply elem_of_cons in Hin as [->|Hin];
          [|done]. cbn. rewrite lookup_insert_eq. eauto. }
  destruct (added_all_rest (Batch.items batch)
              (registered state batch batchOptions))
    as (Hbatches & Hcurrent & Hactive & Haborts).
  split_and!.
  - unfold uploadBatch, bind. unfold updateState at 1. cbn beta iota.
    by rewrite forEach_add_run.
  - exact Hbatches.
  - by rewrite added_all_itemQueue.
  - intros Hnd item Hin. by apply added_all_listed.
  - exact Hlisted.
  - intros id Hnin. by rewrite added_all_other.
  - exact Hcurrent.
  - exact Hactive.
  - exact Haborts.
  - intros Htracked id. rewrite added_all_itemQueue.
    intros [Hold|Hnew]%elem_of_app; [|by apply Hlisted].
    destruct (decide (id ∈ batchItemIds batch)) as [Hin|Hnin];
      [by apply Hlisted|].
    rewrite added_all_other by done. by apply (Htracked id).
Qed.

Lemma uploadBatch_idle_run batch batchOptions queue :
  uploadBatch (ret tt) batch batchOptions queue
  = (Ok tt,
     mkQueue (foldl added (registered (getState queue) batch batchOptions)
                    (Batch.items batch))
             (emitted queue)).
Proof.
  unfold uploadBatch, bind. unfold updateState at 1. cbn beta iota.
  by rewrite forEach_add_run.
Qed.

(** Submitting a batch whose items are new to the store and purging it
    again, with a scheduler that admits nothing in between, gives back the
    queue as it was: the same state, nothing triggered. *)
Theorem uploadBatch_then_purge_restores
    (batch : Batch.t) (batchOptions : object) (queue : QueueState) :
  freshBatch (getState queue) batch →
  bind (uploadBatch (ret tt) batch batchOptions)
       (λ _, bind (removeBatchItems (Batch.id batch))
                  (λ _, removeBatch (Batch.id batch)))
       queue
  = (Ok tt, queue).
Proof.
  intros (Hnew & Hnd & Hfresh).
  rewrite (bind_Ok _ _ _ _ _ (uploadBatch_idle_run batch batchOptions queue)).
  set (state := getState queue).
  set (state1 := foldl added (registered state batch batchOptions)
                       (Batch.items batch)).
  destruct (added_all_rest (Batch.items batch)
              (registered state batch batchOptions))
    as (Hbatches1 & Hcurrent1 & Hactive1 & Haborts1).
  fold state1 in Hbatches1, Hcurrent1, Hactive1, Haborts1.
  assert (State.batches state1 !! Batch.id batch
          = Some (BatchData.mk batch batchOptions)) as Hentry.
  { rewrite Hbatches1. cbn. apply lookup_insert_eq. }
  rewrite (bind_Ok _ _ _ _ _
             (removeBatchItems_run (mkQueue state1 (emitted queue)) _ _ Hentry)).
  unfold removeBatch, updateState. cbn [getState emitted BatchData.batch].
  destruct (removeItems_rest (Batch.items batch) state1)
    as (Hbatches2 & Hcurrent2 & Hactive2 & Haborts2).
  destruct queue as [state0 triggered]. cbn in state. subst state.
  f_equal. f_equal. apply State_eq; cbn.
  - rewrite removeItems_itemQueue. unfold state1.
    rewrite added_all_itemQueue. cbn.
    rewrite <- (foldl_fmap (λ pending id, spliceFirst (sameId id) pending)).
    apply spliceFirst_all_behind; [done|]. intros id Hin.
    by apply Hfresh.
  - by rewrite Hcurrent2, Hcurrent1.
  - rewrite Hbatches2, Hbatches1. cbn. by apply delete_insert_id.
  - apply map_eq. intros id. rewrite removeItems_items.
    destruct (decide (id ∈ BatchItem.id <$> Batch.items batch)) as [Hin|Hnin].
    + symmetry. by apply Hfresh.
    + unfold state1. by rewrite added_all_other.
  - by rewrite Hactive2, Hactive1.
  - by rewrite Haborts2, Haborts1.
Qed.

Lemma twoFiles_fresh :
  freshBatch (getState Samples.emptyQueue) Samples.twoFiles.
Proof.
  split_and!.
  - done.
  - cbn. apply NoDup_cons. split; [|apply NoDup_singleton].
    intros Hin%list_elem_of_singleton. discriminate Hin.
  - intros id _. split; [done|]. apply not_elem_of_nil.
Defined.

Lemma uploadBatch_enqueues_example :
  ∃ state',
    uploadBatch (ret tt) Samples.twoFiles ∅ Samples.emptyQueue
    = (Ok tt, mkQueue state' [])
    ∧ State.itemQueue state' = ["item-1"; "item-2"]
    ∧ State.items state' !! "item-2"
      = Some (Samples.item "item-2" "batch-1" FILE_ADDED)
    ∧ tracked state'.
Proof.
  destruct (uploadBatch_enqueues_in_order (ret tt) Samples.twoFiles ∅
              Samples.emptyQueue)
    as (state' & Hrun & _ & Hpending & Hitems & _ & _ & _ & _ & _ & Htracked).
  destruct twoFiles_fresh as (_ & Hnd & _).
  exists state'. split_and!.
  - exact Hrun.
  - exact Hpending.
  - apply (Hitems Hnd (Samples.item "item-2" "batch-1" FILE_ADDED)).
    apply elem_of_cons. right. apply list_elem_of_singleton. reflexivity.
  - apply Htracked. intros id Hin. by apply elem_of_nil in Hin.
Defined.

Lemma uploadBatch_then_purge_example :
  freshBatch (getState Samples.emptyQueue) Samples.twoFiles
  ∧ bind (uploadBatch (ret tt) Samples.twoFiles ∅)
         (λ _, bind (removeBatchItems "batch-1") (λ _, removeBatch "batch-1"))
         Samples.emptyQueue
    = (Ok tt, Samples.emptyQueue).
Proof.
  split; [exact twoFiles_fresh|].
  exact (uploadBatch_then_purge_restores Samples.twoFiles ∅ Samples.emptyQueue
           twoFiles_fresh).
Defined.

(** ** What the purges keep *)

(** Purging listed items keeps the pending sequence free of repetitions and
    of ids the store does not track. *)
Lemma removeItems_tracked (l : list BatchItem.t) (state : State.t) :
  NoDup (State.itemQueue state) → tracked state →
  NoDup (State.itemQueue (foldl removeItem state l))
  ∧ tracked (foldl removeItem state l).
Proof.
  intros Hnd Htracked. split.
  - eapply sublist_NoDup; [exact Hnd|]. apply removeItems_sublist.
  - intros id Hin. rewrite removeItems_items.
    destruct (decide (id ∈ BatchItem.id <$> l)) as [Hlisted|Hother].
    + by destruct (removeItems_NoDup l state id Hnd Hlisted).
    + apply Htracked. eapply elem_of_sublist; [exact Hin|].
      apply removeItems_sublist.
Qed.

Lemma batchFinished_or_not (state : State.t) :
  batchFinished state ∨ ¬ batchFinished state.
Proof.
  unfold batchFinished.
  destruct (State.itemQueue state) as [|itemId rest]; [by left|].
  destruct (owner state itemId) as [batch|]; [|right; by intros (? & ? & ?)].
  destruct (decide (State.currentBatch state = Some (Batch.id batch)))
    as [Hsame|Hother].
  - right. intros (batch' & [= <-] & Hne). done.
  - left. eauto.
Qed.

(** [cleanUpFinishedBatch] either finds its preconditions met and runs, or
    leaves the queue as it was. *)
Lemma cleanUpFinishedBatch_cases queue :
  (∃ batchId batchData, cleanable (getState queue) batchId batchData)
  ∨ (∀ batchId batchData, ¬ cleanable (getState queue) batchId batchData).
Proof.
  destruct (State.currentBatch (getState queue)) as [batchId|] eqn:Hcurrent;
    [|right; intros ? ? (? & _); congruence].
  destruct (decide (batchId = "")) as [->|Hset];
    [right; intros ? ? (? & ? & _); congruence|].
  destruct (State.batches (getState queue) !! batchId) as [batchData|]
    eqn:Hbatch;
    [|right; intros ? ? (? & _ & ? & _); congruence].
  destruct (batchFinished_or_not (getState queue)) as [Hfinished|Hnot].
  - left. exists batchId, batchData. by split_and!.
  - right. by intros ? ? (_ & _ & _ & ?).
Qed.

(** [cleanUpFinishedBatch] keeps the store well formed: when no id is
    pending twice and every pending id is tracked, the same holds
    afterwards, whether or not a batch was purged. *)
Theorem cleanUpFinishedBatch_keeps_tracked (queue : QueueState) :
  NoDup (State.itemQueue (getState queue)) →
  tracked (getState queue) →
  let state' := getState (cleanUpFinishedBatch queue).2 in
  NoDup (State.itemQueue state') ∧ tracked state'.
Proof.
  intros Hnd Htracked state'. subst state'.
  destruct (cleanUpFinishedBatch_cases queue)
    as [(batchId & batchData & Hclean)|Hnot].
  - rewrite (cleanUpFinishedBatch_run _ _ _ Hclean). cbn [snd getState].
    by apply (removeItems_tracked
                (Batch.items (BatchData.batch batchData)) (getState queue)).
  - by rewrite (cleanUpFinishedBatch_skip _ Hnot).
Qed.

Lemma firstDone_tracked :
  NoDup (State.itemQueue (getState Samples.firstDone))
  ∧ tracked (getState Samples.firstDone).
Proof.
  split; [apply NoDup_singleton|].
  intros id Hin%list_elem_of_singleton. subst id. by eexists.
Defined.

Lemma cleanUpFinishedBatch_keeps_tracked_example :
  NoDup (State.itemQueue (getState Samples.firstDone))
  ∧ tracked (getState Samples.firstDone)
  ∧ tracked (getState (cleanUpFinishedBatch Samples.firstDone).2)
  ∧ State.items (getState (cleanUpFinishedBatch Samples.firstDone).2)
    !! "item-1" = None.
Proof.
  destruct firstDone_tracked as [Hnd Htracked].
  split_and!; [exact Hnd|exact Htracked| |by vm_compute].
  by destruct (cleanUpFinishedBatch_keeps_tracked Samples.firstDone
                 Hnd Htracked).
Defined.

(** Cleaning up twice is cleaning up once: the second call changes nothing
    and triggers nothing, so batch-finish is not repeated for a batch that
    was already purged. *)
Theorem cleanUpFinishedBatch_idempotent (queue : QueueState) :
  (cleanUpFinishedBatch (cleanUpFinishedBatch queue).2).2
  = (cleanUpFinishedBatch queue).2.
Proof.
  destruct (cleanUpFinishedBatch_cases queue)
    as [(batchId & batchData & Hclean)|Hnot].
  - rewrite (cleanUpFinishedBatch_run _ _ _ Hclean). cbn [snd].
    apply cleanUpFinishedBatch_skip.
    intros batchId' batchData' (Hcurrent & _ & Hbatch & _).
    cbn [getState State.currentBatch State.batches State.set_batches]
      in Hcurrent, Hbatch.
    destruct (removeItems_rest (Batch.items (BatchData.batch batchData))
                (getState queue)) as (_ & Hcurrent' & _).
    rewrite Hcurrent' in Hcurrent. destruct Hclean as (Hcurrent0 & _).
    rewrite Hcurrent0 in Hcurrent. injection Hcurrent as <-.
    by rewrite lookup_delete_eq in Hbatch.
  - rewrite (cleanUpFinishedBatch_skip _ Hnot).
    by apply cleanUpFinishedBatch_skip.
Qed.

(** ** Batches that are not cleaned *)

Lemma find_active_some (l : list BatchItem.t) :
  ¬ Forall finalized l →
  ∃ active,
    find (λ item, negb (bool_decide
                          (BatchItem.state item ∈ ITEM_FINALIZE_STATES))) l
    = Some active
    ∧ active ∈ l ∧ ¬ finalized active.
Proof.
  induction l as [|item l IH]; intros Hnot.
  - destruct Hnot. constructor.
  - cbn [find].
    destruct (decide (BatchItem.state item ∈ ITEM_FINALIZE_STATES))
      as [Hfinal|Hactive].
    + rewrite bool_decide_true by done. cbn [negb].
      destruct IH as (active & Hfind & Hin & Hact).
      { intros Hall. apply Hnot. by constructor. }
      exists active. split_and!; [done|by right|done].
    + rewrite bool_decide_false by done. cbn [negb].
      exists item. split_and!; [done|by left|done].
Qed.

(** [ensureNonUploadingBatchCleaned] touches nothing while the batch still
    lists an item that is not in a finalize state, and throws, again without
    touching anything, for a batch id the store does not have. *)
Theorem ensureNonUploadingBatchCleaned_only_when_all_final
    (queue : QueueState) (batchId : string) :
  (State.batches (getState queue) !! batchId = None →
   ∃ e, ensureNonUploadingBatchCleaned batchId queue = (Throw e, queue))
  ∧ (∀ batchData,
       State.batches (getState queue) !! batchId = Some batchData →
       ¬ Forall finalized (Batch.items (BatchData.batch batchData)) →
       ensureNonUploadingBatchCleaned batchId queue = (Ok tt, queue)).
Proof.
  split.
  - intros Hnone. eexists. unfold ensureNonUploadingBatchCleaned.
    rewrite (bind_Ok readState _ queue (getState queue) queue eq_refl).
    unfold bind, getBatchFromState, bind. by rewrite Hnone.
  - intros batchData Hbatch Hactive. unfold ensureNonUploadingBatchCleaned.
    rewrite (bind_Ok readState _ queue (getState queue) queue eq_refl).
    rewrite (bind_Ok _ _ _ _ _
               (getBatchFromState_run queue (getState queue) batchId batchData
                                      Hbatch)).
    by destruct (find_active_some _ Hactive) as (active & -> & _).
Qed.

Lemma ensureNonUploadingBatchCleaned_active_example :
  ensureNonUploadingBatchCleaned "batch-1" Samples.mixed
  = (Ok tt, Samples.mixed)
  ∧ ∃ e, ensureNonUploadingBatchCleaned "batch-9" Samples.mixed
         = (Throw e, Samples.mixed).
Proof.
  destruct (ensureNonUploadingBatchCleaned_only_when_all_final
              Samples.mixed "batch-1") as [_ Hactive].
  destruct (ensureNonUploadingBatchCleaned_only_when_all_final
              Samples.mixed "batch-9") as [Hmissing _].
  split; [|by apply Hmissing].
  eapply Hactive; [by vm_compute|].
  intros Hall. cbn in Hall. apply Forall_cons in Hall as [Hitem _].
  unfold finalized, ITEM_FINALIZE_STATES in Hitem. cbn in Hitem.
  repeat (apply elem_of_cons in Hitem as [Hitem|Hitem]; [discriminate Hitem|]).
  by apply elem_of_nil in Hitem.
Defined.

(** ** Cancelling a batch *)

Lemma cancelBatchForItem_run queue itemId batch batchData :
  owner (getState queue) itemId = Some batch →
  State.batches (getState queue) !! Batch.id batch = Some batchData →
  let cancelled :=
    BatchData.set_batch
      (Batch.set_state BATCH_CANCELLED (BatchData.batch batchData)) batchData in
  let state1 :=
    State.set_batches (<[Batch.id batch := cancelled]>
                         (State.batches (getState queue)))
                      (getState queue) in
  cancelBatchForItem itemId queue
  = (Ok tt,
     mkQueue
       (State.set_batches
          (delete (Batch.id batch) (State.batches (getState queue)))
          (foldl removeItem state1 (Batch.items (BatchData.batch batchData))))
       (emitted queue
        ++ [Trigger BATCH_CANCEL
              (BatchPayload (snapshot state1 (BatchData.batch cancelled)))])).
Proof.
  intros Howner Hbatch cancelled state1. unfold cancelBatchForItem.
  rewrite (bind_Ok _ _ _ _ _ (getBatchFromItemId_Ok _ _ _ Howner)).
  assert (updateStateWith (cancelBatch (Batch.id batch)) queue
          = (Ok tt, mkQueue state1 (emitted queue))) as Hcancel.
  { unfold updateStateWith, cancelBatch. by rewrite Hbatch. }
  rewrite (bind_Ok _ _ _ _ _ Hcancel).
  assert (State.batches state1 !! Batch.id batch = Some cancelled) as Hentry.
  { cbn. apply lookup_insert_eq. }
  rewrite (bind_Ok _ _ _ _ _
             (triggerUploaderBatchEvent_run (mkQueue state1 (emitted queue))
                (Batch.id batch) cancelled BATCH_CANCEL Hentry)).
  cbn [getState emitted].
  rewrite (bind_Ok _ _ _ _ _
             (removeBatchItems_run
                (mkQueue state1
                   (emitted queue
                    ++ [Trigger BATCH_CANCEL
                          (BatchPayload
                             (snapshot state1 (BatchData.batch cancelled)))]))
                (Batch.id batch) cancelled Hentry)).
  unfold removeBatch, updateState. cbn [getState emitted].
  destruct (removeItems_rest (Batch.items (BatchData.batch cancelled)) state1)
    as (-> & _).
  cbn. by rewrite delete_insert_eq.
Qed.

(** For an item of the store whose batch is registered under the batch's
    own id, [cancelBatchForItem] triggers batch-cancel once, with the batch
    in the cancelled state and the store's items under the ids it lists,
    and then takes those items out of the item mapping, splices the first
    occurrence of each listed id out of the pending sequence (which leaves
    none of them when no id is pending twice), and deletes the batch entry;
    [currentBatch] is left as it was, and a store whose pending ids were
    distinct and tracked stays so. *)
Theorem cancelBatchForItem_cancels_then_purges
    (queue : QueueState) (itemId : string) (batch : Batch.t)
    (batchData : BatchData.t) :
  let state := getState queue in
  owner state itemId = Some batch →
  State.batches state !! Batch.id batch = Some batchData →
  let listed := BatchData.batch batchData in
  ∃ state' eventBatch,
    cancelBatchForItem itemId queue
    = (Ok tt, mkQueue state'
                (emitted queue
                 ++ [Trigger BATCH_CANCEL (BatchPayload eventBatch)]))
    ∧ EventBatch.state eventBatch = BATCH_CANCELLED
    ∧ EventBatch.id eventBatch = Batch.id listed
    ∧ EventBatch.items eventBatch
      = map (λ item, State.items state !! BatchItem.id item)
            (Batch.items listed)
    ∧ State.batches state' = delete (Batch.id batch) (State.batches state)
    ∧ (∀ id, id ∈ batchItemIds listed → State.items state' !! id = None)
    ∧ (∀ id, id ∉ batchItemIds listed →
             State.items state' !! id = State.items state !! id)
    ∧ State.itemQueue state'
      = foldl (λ pending item,
                 spliceFirst (sameId (BatchItem.id item)) pending)
              (State.itemQueue state) (Batch.items listed)
    ∧ State.itemQueue state' `sublist_of` State.itemQueue state
    ∧ (NoDup (State.itemQueue state) →
       ∀ id, id ∈ batchItemIds listed → id ∉ State.itemQueue state')
    ∧ State.currentBatch state' = State.currentBatch state
    ∧ (NoDup (State.itemQueue state) → tracked state →
       NoDup (State.itemQueue state') ∧ tracked state').
Proof.
  intros state Howner Hbatch listed. eexists _, _.
  split; [by apply cancelBatchForItem_run|].
  set (state1 :=
         State.set_batches
           (<[Batch.id batch :=
                BatchData.set_batch (Batch.set_state BATCH_CANCELLED listed)
                                    batchData]>
              (State.batches state))
           state).
  cbn [EventBatch.state EventBatch.id EventBatch.items snapshot
       BatchData.batch BatchData.set_batch Batch.set_state Batch.state
       Batch.id Batch.items State.batches State.items State.currentBatch
       State.itemQueue State.set_batches].
  fold listed.
  destruct (removeItems_rest (Batch.items listed) state1)
    as (_ & Hcurrent & _).
  split_and!; try done.
  - intros id Hin. rewrite removeItems_items. by rewrite decide_True.
  - intros id Hnin. rewrite removeItems_items. by rewrite decide_False.
  - apply (removeItems_itemQueue (Batch.items listed) state1).
  - apply (removeItems_sublist (Batch.items listed) state1).
  - intros Hnd id Hin. by apply (removeItems_NoDup (Batch.items listed) state1).
  - intros Hnd Htracked. by apply (removeItems_tracked _ state1).
Qed.

(** When [cancelBatchForItem] throws (the item is not tracked, or its batch
    is not in the store), it has changed nothing and triggered nothing. *)
Theorem cancelBatchForItem_throws_untouched
    (queue : QueueState) (itemId : string) (e : exn) :
  (cancelBatchForItem itemId queue).1 = Throw e →
  (cancelBatchForItem itemId queue).2 = queue.
Proof.
  unfold cancelBatchForItem.
  destruct (owner (getState queue) itemId) as [batch|] eqn:Howner.
  - rewrite (bind_Ok _ _ _ _ _ (getBatchFromItemId_Ok _ _ _ Howner)).
    destruct (State.batches (getState queue) !! Batch.id batch)
      as [batchData|] eqn:Hbatch.
    + pose proof (cancelBatchForItem_run _ _ _ _ Howner Hbatch) as Hok.
      unfold cancelBatchForItem in Hok.
      rewrite (bind_Ok _ _ _ _ _ (getBatchFromItemId_Ok _ _ _ Howner)) in Hok.
      rewrite Hok. discriminate.
    + assert (updateStateWith (cancelBatch (Batch.id batch)) queue
              = (Throw (TypeError "batch"), queue)) as Hcancel.
      { unfold updateStateWith, cancelBatch. by rewrite Hbatch. }
      by rewrite (bind_Throw _ _ _ _ _ Hcancel).
  - destruct (getBatchFromItemId_Throw _ _ Howner) as [e' He'].
    by rewrite (bind_Throw _ _ _ _ _ He').
Qed.

Lemma cancelBatchForItem_example :
  owner (getState Samples.mixed) "item-2"
  = Some (Batch.mk "batch-2" [Samples.item "item-2" "batch-2" FILE_PENDING]
                   BATCH_PENDING)
  ∧ ∃ state',
      cancelBatchForItem "item-2" Samples.mixed
      = (Ok tt,
         mkQueue state'
           [Trigger BATCH_CANCEL
              (BatchPayload
                 (EventBatch.mk "batch-2" BATCH_CANCELLED
                    [Some (Samples.item "item-2" "batch-2" FILE_PENDING)]))])
      ∧ State.batches state' !! "batch-2" = None
      ∧ State.items state' !! "item-2" = None
      ∧ State.itemQueue state' = ["item-1"]
      ∧ State.items state' !! "item-1"
        = Some (Samples.item "item-1" "batch-1" FILE_UPLOADING).
Proof.
  split; [by vm_compute|].
  destruct (cancelBatchForItem_cancels_then_purges Samples.mixed "item-2"
              (Batch.mk "batch-2" [Samples.item "item-2" "batch-2" FILE_PENDING]
                        BATCH_PENDING)
              (Samples.batchData "batch-2"
                 [Samples.item "item-2" "batch-2" FILE_PENDING] BATCH_PENDING ∅))
    as (state' & eventBatch & Hrun & Hstate & Hid & Hitems & Hbatches
        & Hgone & Hkept & Hpending & _); [by vm_compute..|].
  exists state'. split_and!.
  - rewrite Hrun. do 4 f_equal. destruct eventBatch as [id state items].
    cbn in Hstate, Hid, Hitems. by rewrite Hstate, Hid, Hitems.
  - rewrite Hbatches. apply lookup_delete_eq.
  - apply Hgone. cbn. left.
  - rewrite Hpending. by vm_compute.
  - rewrite Hkept; [by vm_compute|].
    cbn. intros Hin%list_elem_of_singleton. discriminate Hin.
Defined.

Lemma cancelBatchForItem_untracked_example :
  (cancelBatchForItem "item-9" Samples.mixed).1 = Throw (TypeError "batchId")
  ∧ (cancelBatchForItem "item-9" Samples.mixed).2 = Samples.mixed.
Proof.
  assert ((cancelBatchForItem "item-9" Samples.mixed).1
          = Throw (TypeError "batchId")) as Hthrow by (by vm_compute).
  split; [exact Hthrow|].
  exact (cancelBatchForItem_throws_untouched Samples.mixed "item-9" _ Hthrow).
Defined.

(** ** Removing the pending batches *)

Lemma purgeBatch_run queue batchId batchData :
  State.batches (getState queue) !! batchId = Some batchData →
  bind (removeBatchItems batchId) (λ _, removeBatch batchId) queue
  = (Ok tt, mkQueue (purged (getState queue) batchId batchData)
              (emitted queue)).
Proof.
  intros Hbatch.
  rewrite (bind_Ok _ _ _ _ _ (removeBatchItems_run queue batchId batchData Hbatch)).
  unfold removeBatch, updateState, purged. cbn [getState emitted].
  by destruct (removeItems_rest (Batch.items (BatchData.batch batchData))
                 (getState queue)) as (-> & _).
Qed.

Lemma purged_fields state batchId batchData :
  State.batches (purged state batchId batchData)
  = delete batchId (State.batches state)
  ∧ State.currentBatch (purged state batchId batchData)
    = State.currentBatch state
  ∧ State.itemQueue (purged state batchId batchData)
    `sublist_of` State.itemQueue state
  ∧ (∀ id, State.items (purged state batchId batchData) !! id
           = if decide (id ∈ batchItemIds (BatchData.batch batchData))
             then None else State.items state !! id).
Proof.
  unfold purged. cbn.
  destruct (removeItems_rest (Batch.items (BatchData.batch batchData)) state)
    as (_ & Hcurrent & _).
  split_and!; [done|done|apply removeItems_sublist|].
  intros id. apply removeItems_items.
Qed.

Lemma purged_tracked state batchId batchData :
  NoDup (State.itemQueue state) → tracked state →
  NoDup (State.itemQueue (purged state batchId batchData))
  ∧ tracked (purged state batchId batchData).
Proof.
  intros Hnd Htracked. unfold purged.
  by apply (removeItems_tracked (Batch.items (BatchData.batch batchData)) state).
Qed.

(** Purging, one after the other, distinct batches that are all in the
    store. *)
Lemma forEach_purge (l : list string) queue :
  NoDup l →
  (∀ batchId, batchId ∈ l →
              is_Some (State.batches (getState queue) !! batchId)) →
  let state := getState queue in
  ∃ state',
    forEach (λ batchId, bind (removeBatchItems batchId)
                             (λ _, removeBatch batchId)) l queue
    = (Ok tt, mkQueue state' (emitted queue))
    ∧ (∀ batchId, State.batches state' !! batchId
                  = if decide (batchId ∈ l) then None
                    else State.batches state !! batchId)
    ∧ (∀ id, State.items state !! id = None → State.items state' !! id = None)
    ∧ (∀ batchId batchData id,
         batchId ∈ l → State.batches state !! batchId = Some batchData →
         id ∈ batchItemIds (BatchData.batch batchData) →
         State.items state' !! id = None)
    ∧ (∀ id,
         (∀ batchId batchData,
            batchId ∈ l → State.batches state !! batchId = Some batchData →
            id ∉ batchItemIds (BatchData.batch batchData)) →
         State.items state' !! id = State.items state !! id)
    ∧ State.currentBatch state' = State.currentBatch state
    ∧ State.itemQueue state' `sublist_of` State.itemQueue state
    ∧ (NoDup (State.itemQueue state) → tracked state →
       NoDup (State.itemQueue state') ∧ tracked state').
Proof.
  revert queue. induction l as [|first l IH]; intros queue Hnd Hall state.
  - exists state. split_and!.
    + by destruct queue.
    + intros batchId. by destruct (decide (batchId ∈ [])) as [?%elem_of_nil|].
    + done.
    + intros batchId batchData id Hin. by apply elem_of_nil in Hin.
    + done.
    + done.
    + done.
    + done.
  - apply NoDup_cons in Hnd as [Hfirst Hnd].
    destruct (Hall first) as [batchData Hbatch]; [left|].
    fold state in Hbatch.
    destruct (purged_fields state first batchData)
      as (Hbatches1 & Hcurrent1 & Hsub1 & Hitems1).
    set (queue1 := mkQueue (purged state first batchData) (emitted queue)).
    destruct (IH queue1 Hnd)
      as (state' & Hrun & Hbatches & Hdel & Hgone & Hkept & Hcurrent & Hsub
          & Htracked).
    { intros batchId Hin.
      change (getState queue1) with (purged state first batchData).
      rewrite Hbatches1.
      rewrite lookup_delete_ne; [apply Hall; by right|].
      intros <-. done. }
    change (getState queue1) with (purged state first batchData) in *.
    change (emitted queue1) with (emitted queue) in *.
    exists state'. split_and!.
    + cbn [forEach]. rewrite (bind_Ok _ _ _ _ _ (purgeBatch_run _ _ _ Hbatch)).
      exact Hrun.
    + intros batchId. rewrite Hbatches, Hbatches1.
      destruct (decide (batchId ∈ l)) as [Hin|Hnin],
               (decide (batchId ∈ first :: l)) as [Hin'|Hnin']; try done.
      * destruct Hnin'. by right.
      * apply elem_of_cons in Hin' as [->|?]; [apply lookup_delete_eq|done].
      * rewrite lookup_delete_ne; [done|].
        intros Heq. apply Hnin'. subst. left.
    + intros id Hnone. apply Hdel. rewrite Hitems1.
      by destruct (decide _).
    + intros batchId batchData' id Hin Hlookup Hlisted.
      apply elem_of_cons in Hin as [->|Hin].
      * apply Hdel. rewrite Hitems1. rewrite Hbatch in Hlookup.
        injection Hlookup as <-. by rewrite decide_True.
      * apply (Hgone batchId batchData' id Hin); [|done].
        rewrite Hbatches1, lookup_delete_ne; [done|]. intros <-. done.
    + intros id Hunlisted. rewrite Hkept.
      * rewrite Hitems1. rewrite decide_False; [done|].
        apply (Hunlisted first batchData); [left|done].
      * intros batchId batchData' Hin Hlookup.
        rewrite Hbatches1 in Hlookup.
        apply lookup_delete_Some in Hlookup as [_ Hlookup].
        apply (Hunlisted batchId batchData'); [by right|done].
    + by rewrite Hcurrent.
    + by etrans.
    + intros Hnd0 Htracked0.
      destruct (purged_tracked state first batchData Hnd0 Htracked0).
      by apply Htracked.
Qed.

Lemma elem_of_filter_pending (batches : gmap string BatchData.t)
    (keys : list string) batchId :
  batchId ∈ List.filter (isPendingIn batches) keys
  ↔ batchId ∈ keys ∧ ∃ batchData, batches !! batchId = Some batchData
                                  ∧ pending batchData.
Proof.
  rewrite !list_elem_of_In, filter_In. unfold isPendingIn, pending.
  split; intros [Hin Hpending]; (split; [done|]).
  - destruct (batches !! batchId) as [batchData|]; [|done].
    exists batchData. split; [done|]. by apply bool_decide_eq_true in Hpending.
  - destruct Hpending as (batchData & -> & Hstate).
    by apply bool_decide_eq_true.
Qed.

(** Given the keys of the store's batches, each once and in any order,
    [removePendingBatches] removes exactly the batches that are pending,
    with the items they list, and leaves every other batch and every item
    no pending batch lists as they are; it triggers nothing, does not touch
    [currentBatch], and keeps the pending ids distinct and tracked when
    they were. *)
Theorem removePendingBatches_removes_exactly_pending
    (keys : list string) (queue : QueueState) :
  let state := getState queue in
  NoDup keys →
  (∀ batchId, batchId ∈ keys ↔ is_Some (State.batches state !! batchId)) →
  ∃ state',
    removePendingBatches keys queue = (Ok tt, mkQueue state' (emitted queue))
    ∧ (∀ batchId batchData,
         State.batches state !! batchId = Some batchData →
         (pending batchData → State.batches state' !! batchId = None)
         ∧ (¬ pending batchData →
            State.batches state' !! batchId = Some batchData))
    ∧ (∀ batchId, State.batches state !! batchId = None →
                  State.batches state' !! batchId = None)
    ∧ (∀ batchId batchData id,
         State.batches state !! batchId = Some batchData →
         pending batchData →
         id ∈ batchItemIds (BatchData.batch batchData) →
         State.items state' !! id = None)
    ∧ (∀ id,
         (∀ batchId batchData,
            State.batches state !! batchId = Some batchData →
            pending batchData →
            id ∉ batchItemIds (BatchData.batch batchData)) →
         State.items state' !! id = State.items state !! id)
    ∧ State.currentBatch state' = State.currentBatch state
    ∧ State.itemQueue state' `sublist_of` State.itemQueue state
    ∧ (NoDup (State.itemQueue state) → tracked state →
       NoDup (State.itemQueue state') ∧ tracked state').
Proof.
  intros state Hnd Hkeys.
  set (l := List.filter (isPendingIn (State.batches state)) keys).
  destruct (forEach_purge l queue)
    as (state' & Hrun & Hbatches & _ & Hgone & Hkept & Hcurrent & Hsub
        & Htracked).
  { subst l. apply NoDup_ListNoDup, List.NoDup_filter.
    by apply NoDup_ListNoDup. }
  { intros batchId (_ & batchData & Hbatch & _)%elem_of_filter_pending.
    fold state. rewrite Hbatch. eauto. }
  fold state in Hbatches, Hgone, Hkept, Hcurrent, Hsub, Htracked.
  exists state'. split_and!.
  - unfold removePendingBatches.
    rewrite (bind_Ok readState _ queue (getState queue) queue eq_refl).
    exact Hrun.
  - intros batchId batchData Hbatch. rewrite Hbatches. split.
    + intros Hpending. rewrite decide_True; [done|].
      apply elem_of_filter_pending. split; [|eauto].
      apply Hkeys. rewrite Hbatch. eauto.
    + intros Hnot. rewrite decide_False; [done|].
      intros (_ & batchData' & Hbatch' & Hpending)%elem_of_filter_pending.
      rewrite Hbatch in Hbatch'. by injection Hbatch' as <-.
  - intros batchId Hnone. rewrite Hbatches. by destruct (decide _).
  - intros batchId batchData id Hbatch Hpending Hlisted.
    apply (Hgone batchId batchData id); [|done..].
    apply elem_of_filter_pending. split; [|eauto].
    apply Hkeys. rewrite Hbatch. eauto.
  - intros id Hunlisted. apply Hkept.
    intros batchId batchData
           (_ & batchData' & Hbatch' & Hpending)%elem_of_filter_pending Hbatch.
    rewrite Hbatch in Hbatch'. injection Hbatch' as <-.
    by apply (Hunlisted batchId batchData).
  - exact Hcurrent.
  - exact Hsub.
  - exact Htracked.
Qed.

Lemma mixed_keys :
  NoDup ["batch-1"; "batch-2"]
  ∧ ∀ batchId, batchId ∈ ["batch-1"; "batch-2"]
               ↔ is_Some (State.batches (getState Samples.mixed) !! batchId).
Proof.
  split.
  - apply NoDup_cons. split; [|apply NoDup_singleton].
    intros Hin%list_elem_of_singleton. discriminate Hin.
  - intros batchId. split.
    + intros [->|[->|Hin]%elem_of_cons]%elem_of_cons;
        [by eexists|by eexists|by apply elem_of_nil in Hin].
    + intros [batchData Hbatch].
      unfold Samples.mixed in Hbatch.
      cbn [getState State.batches] in Hbatch.
      destruct (decide (batchId = "batch-1")) as [->|Hne1]; [left|].
      destruct (decide (batchId = "batch-2")) as [->|Hne2]; [right; left|].
      rewrite lookup_insert_ne, lookup_singleton_ne in Hbatch by done.
      discriminate Hbatch.
Defined.

Lemma removePendingBatches_example :
  ∃ state',
    removePendingBatches ["batch-1"; "batch-2"] Samples.mixed
    = (Ok tt, mkQueue state' [])
    ∧ State.batches state' !! "batch-2" = None
    ∧ State.items state' !! "item-2" = None
    ∧ State.batches state' !! "batch-1"
      = State.batches (getState Samples.mixed) !! "batch-1"
    ∧ State.items state' !! "item-1"
      = Some (Samples.item "item-1" "batch-1" FILE_UPLOADING).
Proof.
  destruct mixed_keys as [Hnd Hkeys].
  destruct (removePendingBatches_removes_exactly_pending
              ["batch-1"; "batch-2"] Samples.mixed Hnd Hkeys)
    as (state' & Hrun & Hbatches & _ & Hgone & Hkept & _).
  exists state'.
  assert (State.batches (getState Samples.mixed) !! "batch-2"
          = Some (Samples.batchData "batch-2"
                    [Samples.item "item-2" "batch-2" FILE_PENDING]
                    BATCH_PENDING ∅)) as Hsecond by (by vm_compute).
  assert (State.batches (getState Samples.mixed) !! "batch-1"
          = Some (Samples.batchData "batch-1"
                    [Samples.item "item-1" "batch-1" FILE_UPLOADING]
                    BATCH_UPLOADING ∅)) as Hfirst by (by vm_compute).
  split_and!.
  - exact Hrun.
  - by apply (Hbatches _ _ Hsecond).
  - apply (Hgone _ _ "item-2" Hsecond); [done|]. cbn. left.
  - rewrite Hfirst. by apply (Hbatches _ _ Hfirst).
  - rewrite Hkept; [by vm_compute|].
    intros batchId batchData Hbatch Hpending.
    assert (batchId ∈ ["batch-1"; "batch-2"]) as Hin.
    { apply Hkeys. rewrite Hbatch. eauto. }
    apply elem_of_cons in Hin as [->|Hin].
    + rewrite Hfirst in Hbatch. injection Hbatch as <-. discriminate Hpending.
    + apply list_elem_of_singleton in Hin as ->.
      rewrite Hsecond in Hbatch. injection Hbatch as <-.
      cbn. intros Hlisted%list_elem_of_singleton. discriminate Hlisted.
Defined.

(** ** Readiness, and the gate *)

Lemma getIsItemBatchReady_run queue itemId batch :
  owner (getState queue) itemId = Some batch →
  getIsItemBatchReady itemId queue
  = (Ok (bool_decide (Batch.state batch ∈ BATCH_READY_STATES)), queue).
Proof.
  intros Howner. unfold getIsItemBatchReady.
  by rewrite (bind_Ok _ _ _ _ _ (getBatchFromItemId_Ok _ _ _ Howner)).
Qed.

(** An item of a pending batch is not ready to be sent; once
    [preparePendingForUpload] has run, whatever the options, it is. *)
Theorem preparePendingForUpload_makes_ready
    (queue : QueueState) (uploadOptions : option object)
    (itemId : string) (item : BatchItem.t) (batchData : BatchData.t) :
  State.items (getState queue) !! itemId = Some item →
  State.batches (getState queue) !! BatchItem.batchId item = Some batchData →
  pending batchData →
  let prepared := (preparePendingForUpload uploadOptions queue).2 in
  getIsItemBatchReady itemId queue = (Ok false, queue)
  ∧ getIsItemBatchReady itemId prepared = (Ok true, prepared).
Proof.
  intros Hitem Hbatch Hpending prepared. split.
  - rewrite (getIsItemBatchReady_run _ _ (BatchData.batch batchData)).
    + rewrite bool_decide_false; [done|]. rewrite Hpending.
      unfold BATCH_READY_STATES.
      intros Hin.
      repeat (apply elem_of_cons in Hin as [Hin|Hin]; [discriminate Hin|]).
      by apply elem_of_nil in Hin.
    + unfold owner. rewrite Hitem. cbn. by rewrite Hbatch.
  - rewrite (getIsItemBatchReady_run _ _
               (BatchData.batch (preparePending uploadOptions batchData))).
    + unfold preparePending. rewrite (bool_decide_true _ Hpending).
      cbn [BatchData.batch Batch.state].
      rewrite bool_decide_true; [done|]. left.
    + unfold owner, prepared, preparePendingForUpload, updateState.
      cbn [snd getState State.items State.batches State.set_batches].
      rewrite Hitem. cbn [mbind option_bind].
      by rewrite lookup_fmap, Hbatch.
Qed.

Lemma preparePendingForUpload_makes_ready_example :
  let prepared := (preparePendingForUpload None Samples.deferred).2 in
  getIsItemBatchReady "item-1" Samples.deferred = (Ok false, Samples.deferred)
  ∧ getIsItemBatchReady "item-1" prepared = (Ok true, prepared).
Proof.
  apply (preparePendingForUpload_makes_ready Samples.deferred None "item-1"
           (Samples.item "item-1" "batch-1" FILE_PENDING)
           (Samples.batchData "batch-1"
              [Samples.item "item-1" "batch-1" FILE_PENDING]
              BATCH_PENDING Samples.storedOptions));
    by vm_compute.
Defined.

(** The options given to [preparePendingForUpload] reach a batch once: a
    second call, with whatever options, finds no pending batch and leaves
    the queue as the first call left it. *)
Theorem preparePendingForUpload_once
    (queue : QueueState) (first second : option object) :
  preparePendingForUpload second (preparePendingForUpload first queue).2
  = (Ok tt, (preparePendingForUpload first queue).2).
Proof.
  unfold preparePendingForUpload, updateState. cbn [snd getState emitted].
  do 2 f_equal. destruct (getState queue) as [q current batches items a b].
  unfold State.set_batches. cbn. f_equal.
  rewrite <- map_fmap_compose. apply map_fmap_ext.
  intros batchId batchData _. cbn. unfold preparePending.
  destruct (decide (Batch.state (BatchData.batch batchData) = BATCH_PENDING))
    as [Hpending|Hother].
  - rewrite (bool_decide_true _ Hpending). cbn.
    by rewrite bool_decide_false.
  - rewrite (bool_decide_false _ Hother). by rewrite bool_decide_false.
Qed.

(** Once the batch-start gate has let a batch through, none of its items
    starts a new batch, and with one of them at the head of the pending
    sequence the batch does not count as finished: cleanup leaves the queue
    alone. *)
Theorem loadNewBatchForItem_then_not_new
    (queue : QueueState) (batch : Batch.t) :
  let started := (loadNewBatchForItem_then batch false queue).2 in
  (∀ itemId batch',
     owner (getState queue) itemId = Some batch' →
     Batch.id batch' = Batch.id batch →
     isNewBatchStarting itemId started = (Ok false, started))
  ∧ (∀ itemId rest batch',
       State.itemQueue (getState queue) = itemId :: rest →
       owner (getState queue) itemId = Some batch' →
       Batch.id batch' = Batch.id batch →
       isBatchFinished started = (Ok false, started)
       ∧ cleanUpFinishedBatch started = (Ok tt, started)).
Proof.
  intros started.
  assert (∀ itemId batch',
            owner (getState queue) itemId = Some batch' →
            Batch.id batch' = Batch.id batch →
            isNewBatchStarting itemId started = (Ok false, started)) as Hnew.
  { intros itemId batch' Howner Hid.
    rewrite (isNewBatchStarting_run started itemId batch');
      [|by destruct queue as [[] ?]].
    rewrite bool_decide_false; [done|].
    intros Hne. apply Hne. subst started. cbn. by rewrite Hid. }
  split; [exact Hnew|].
  intros itemId rest batch' Hqueue Howner Hid.
  assert (isBatchFinished started = (Ok false, started)) as Hunfinished.
  { unfold isBatchFinished.
    rewrite (bind_Ok readState _ started (getState started) started eq_refl).
    replace (State.itemQueue (getState started)) with (itemId :: rest)
      by (by rewrite <- Hqueue).
    by apply (Hnew itemId batch'). }
  split; [exact Hunfinished|].
  unfold cleanUpFinishedBatch.
  rewrite (bind_Ok readState _ started (getState started) started eq_refl).
  destruct (State.currentBatch (getState started)) as [batchId|]; [|done].
  destruct (truthy_string batchId
            && bool_decide (is_Some (State.batches (getState started)
                                     !! batchId))); [|done].
  by rewrite (bind_Ok _ _ _ _ _ Hunfinished).
Qed.

Lemma loadNewBatchForItem_then_not_new_example :
  let batch := Batch.mk "batch-2" [Samples.item "item-2" "batch-2" FILE_ADDED]
                        BATCH_ADDED in
  let started :=
    (loadNewBatchForItem_then batch false Samples.betweenBatches).2 in
  isNewBatchStarting "item-2" Samples.betweenBatches
  = (Ok true, Samples.betweenBatches)
  ∧ isNewBatchStarting "item-2" started = (Ok false, started)
  ∧ cleanUpFinishedBatch started = (Ok tt, started).
Proof.
  intros batch started.
  destruct (loadNewBatchForItem_then_not_new Samples.betweenBatches batch)
    as [Hnew Hhead].
  split_and!.
  - by vm_compute.
  - by apply (Hnew "item-2" batch).
  - by apply (Hhead "item-2" [] batch).
Defined.

(** ** Detaching once *)



(** ** One chunk, from the call to the answer of the listeners *)

Section SendChunkComposed.
Import SendChunk.

Variable getChunkDataFromFile : File.t → Z → Z → option Blob.t.
Variable xhrSend : list ChunkItem → option string → object → SendResult.
Variable transportAbort : nat → bool.

Implicit Types (w : ChunkedState) (chunk fresh : Chunk.t) (item : BatchItem.t).
Implicit Types (sending : Sending) (awaited : Awaited).

Lemma sendFresh_Ok_inv chunk item w sending w' :
  sendFresh chunk item w = (Ok sending, w') →
  ∃ fresh data awaited,
    freshChunk w chunk = Some fresh
    ∧ Chunk.data fresh = Some data
    ∧ uploadChunkWithUpdatedData fresh item w = (Ok awaited, w')
    ∧ sending = mkSending (Awaiting awaited) [ThenRequest] None
                          "chunk-passthrough-sender".
Proof.
  unfold sendFresh, freshChunk.
  rewrite (bind_Ok (getFreshChunk chunk) _ w
             (ChunkedData.chunks (getState w) !! Chunk.index chunk) w eq_refl).
  destruct (ChunkedData.chunks (getState w) !! Chunk.index chunk)
    as [fresh|]; [|discriminate].
  rewrite (bind_Ok (prop_of "data" (Some fresh)) _ w fresh w eq_refl).
  destruct (Chunk.data fresh) as [data|] eqn:Hdata; [|discriminate].
  destruct (uploadChunkWithUpdatedData_run fresh item w)
    as (awaited & payload & Hrun & _).
  rewrite (bind_Ok _ _ _ _ _ Hrun). intros [= <- <-].
  by exists fresh, data, awaited.
Qed.

(** What a returning [sendChunk] has done: at most one slicing, then
    [uploadChunkWithUpdatedData] for the chunk read back from the state,
    which holds data. *)
Lemma sendChunk_Ok_inv chunk item w sending w' :
  sendChunk getChunkDataFromFile chunk item w = (Ok sending, w') →
  ∃ fresh data awaited slicing,
    freshChunk w' chunk = Some fresh
    ∧ Chunk.data fresh = Some data
    ∧ noNetwork slicing
    ∧ ChunkedData.sendOptions (getState w')
      = ChunkedData.sendOptions (getState w)
    ∧ uploadChunkWithUpdatedData fresh item
        (mkChunked (getState w') (effects w ++ slicing))
      = (Ok awaited, w')
    ∧ sending = mkSending (Awaiting awaited) [ThenRequest] None
                          "chunk-passthrough-sender".
Proof.
  rewrite sendChunk_sendFresh.
  assert (∀ w0, sendFresh chunk item w0 = (Ok sending, w') →
            ∃ fresh data awaited,
              freshChunk w' chunk = Some fresh
              ∧ Chunk.data fresh = Some data
              ∧ getState w' = getState w0
              ∧ uploadChunkWithUpdatedData fresh item
                  (mkChunked (getState w') (effects w0))
                = (Ok awaited, w')
              ∧ sending = mkSending (Awaiting awaited) [ThenRequest] None
                                    "chunk-passthrough-sender") as Hsent.
  { intros w0 Hrun.
    destruct (sendFresh_Ok_inv _ _ _ _ _ Hrun)
      as (fresh & data & awaited & Hfresh & Hdata & Hstart & Hsending).
    assert (getState w' = getState w0) as Hstate.
    { destruct (uploadChunkWithUpdatedData_run fresh item w0)
        as (awaited' & payload & Hrun' & _).
      rewrite Hrun' in Hstart. by injection Hstart as _ <-. }
    exists fresh, data, awaited. split_and!; try done.
    - unfold freshChunk in *. by rewrite Hstate.
    - rewrite Hstate. by destruct w0. }
  destruct (Chunk.data chunk) as [data0|].
  - intros Hrun. destruct (Hsent _ Hrun)
      as (fresh & data & awaited & ? & ? & Hstate & ? & ?).
    exists fresh, data, awaited, []. rewrite app_nil_r.
    split_and!; try done.
    + intros ? ? ? Hin. by apply elem_of_nil in Hin.
    + by rewrite Hstate.
  - destruct (freshChunk w chunk) as [fresh0|]; [|discriminate].
    intros Hrun. destruct (Hsent _ Hrun)
      as (fresh & data & awaited & ? & ? & Hstate & ? & ?).
    exists fresh, data, awaited,
           [SliceFile (BatchItem.file item) (Chunk.start chunk)
                      (Chunk.end_ chunk)].
    split_and!; try done.
    + intros ? ? ? Hin%list_elem_of_singleton. discriminate Hin.
    + by rewrite Hstate.
Qed.

(** From the call of [sendChunk] to the interception there is no network
    call. *)
Lemma sendChunk_Ok_effects chunk item w sending w' :
  sendChunk getChunkDataFromFile chunk item w = (Ok sending, w') →
  ∃ since, effects w' = effects w ++ since ∧ noNetwork since.
Proof.
  intros Hrun.
  destruct (sendChunk_Ok_inv _ _ _ _ _ Hrun)
    as (fresh & data & awaited & slicing & _ & _ & Hslicing & _ & Hstart & _).
  destruct (uploadChunkWithUpdatedData_run fresh item
              (mkChunked (getState w') (effects w ++ slicing)))
    as (awaited' & payload & Hrun' & _).
  rewrite Hrun' in Hstart. injection Hstart as _ <-.
  exists (slicing ++ [TriggerUpdater payload]). cbn [effects].
  split; [by rewrite app_assoc|].
  intros items url sendOptions [Hin|Hin%list_elem_of_singleton]%elem_of_app.
  - by apply (Hslicing items url sendOptions).
  - discriminate Hin.
Qed.

(** A chunk the listeners ask to skip never reaches the network: from the
    call of [sendChunk] to the settled result there is no call of the
    transport, and the request handed back resolves to finished with
    status 200. *)
Theorem sendChunk_skipped_without_network chunk item w sending w' :
  sendChunk getChunkDataFromFile chunk item w = (Ok sending, w') →
  ∃ settled done_,
    settle xhrSend transportAbort UFalse sending w' = (Ok settled, w')
    ∧ chunkXhrRequest settled = Fulfilled getSkippedResult
    ∧ sending_request settled = Some (inl (Resolved done_))
    ∧ state done_ = FILE_FINISHED ∧ status done_ = 200
    ∧ ∃ since, effects w' = effects w ++ since ∧ noNetwork since.
Proof.
  intros Hrun. pose proof (sendChunk_Ok_effects _ _ _ _ _ Hrun) as Heffects.
  destruct (sendChunk_Ok_inv _ _ _ _ _ Hrun)
    as (fresh & data & awaited & slicing & _ & _ & _ & _ & _ & ->).
  eexists _, _. split_and!; [reflexivity|done|reflexivity|done|done|done].
Qed.

(** A chunk the listeners let through reaches the network exactly once,
    as the last thing done: one item made of the data and the id of the
    chunk read back from the state, and the request of that call is the one
    handed back. *)
Theorem sendChunk_sent_once chunk item w sending w' updatedData :
  sendChunk getChunkDataFromFile chunk item w = (Ok sending, w') →
  updatedData ≠ UFalse →
  ∃ fresh settled url sendOptions since,
    freshChunk w' chunk = Some fresh
    ∧ let items := [createBatchItem (Chunk.data fresh) (Chunk.id fresh)] in
      settle xhrSend transportAbort updatedData sending w'
      = (Ok settled,
         mkChunked (getState w')
                   (effects w' ++ [XhrSend items url sendOptions]))
      ∧ chunkXhrRequest settled = Fulfilled (xhrSend items url sendOptions)
      ∧ sending_request settled
        = Some (inl (request (xhrSend items url sendOptions)))
      ∧ callbacks settled = []
      ∧ effects w' = effects w ++ since ∧ noNetwork since.
Proof.
  intros Hrun Hproceed.
  destruct (sendChunk_Ok_effects _ _ _ _ _ Hrun) as (since & Heffects & Hsince).
  destruct (sendChunk_Ok_inv _ _ _ _ _ Hrun)
    as (fresh & data & awaited & slicing & Hfresh & _ & _ & _ & Hstart & ->).
  injection Hstart as <- _.
  exists fresh. eexists _, _, _, since.
  split; [exact Hfresh|]. cbn zeta.
  split_and!.
  - unfold settle. cbn [chunkXhrRequest callbacks].
    unfold uploadChunkWithUpdatedData_resume.
    destruct updatedData; [done|reflexivity..].
  - done.
  - done.
  - done.
  - done.
  - done.
Qed.

(** Holding data in the chunk handed over does not help when the state's own
    chunk has none: [sendChunk] slices nothing and throws, the chunked state
    and the effects as they were. *)
Theorem sendChunk_trusts_only_state_data chunk fresh data item w :
  Chunk.data chunk = Some data →
  freshChunk w chunk = Some fresh →
  Chunk.data fresh = None →
  sendChunk getChunkDataFromFile chunk item w
  = (Throw (ChunkedSendError "chunk failure - failed to slice"), w).
Proof.
  intros Hdata Hfresh Hnone. rewrite sendChunk_sendFresh, Hdata.
  pose proof (sendFresh_run chunk item w) as Hrun.
  by rewrite Hfresh, Hnone in Hrun.
Qed.

(** Every chunk [sendChunk] starts offers the listeners the state's send
    options with one header added: every option other than [headers] and
    every header other than [Content-Range] is the state's, the state's own
    options are left as they were, and [Content-Range] is the byte range
    string of the chunk read back from the state, never the empty value of a
    chunk without data. *)
Theorem sendChunk_offers_state_options chunk item w sending w' :
  sendChunk getChunkDataFromFile chunk item w = (Ok sending, w') →
  ∃ fresh data awaited payload headers,
    freshChunk w' chunk = Some fresh
    ∧ Chunk.data fresh = Some data
    ∧ chunkXhrRequest sending = Awaiting awaited
    ∧ last (effects w') = Some (TriggerUpdater payload)
    ∧ aw_sendOptions awaited = ev_sendOptions payload
    ∧ ChunkedData.sendOptions (getState w')
      = ChunkedData.sendOptions (getState w)
    ∧ (∀ key, key ≠ "headers" →
         ev_sendOptions payload !! key
         = ChunkedData.sendOptions (getState w) !! key)
    ∧ ev_sendOptions payload !! "headers" = Some (JObj headers)
    ∧ (∀ name, name ≠ "Content-Range" →
         headers !! name
         = headers_of (ChunkedData.sendOptions (getState w)) !! name)
    ∧ headers !! "Content-Range"
      = Some (JStr ("bytes " +:+ pretty (Chunk.start fresh) +:+ "-"
                    +:+ pretty (Chunk.start fresh + Blob.size data - 1)
                    +:+ "/" +:+ pretty (File.size (BatchItem.file item)))).
Proof.
  intros Hrun.
  destruct (sendChunk_Ok_inv _ _ _ _ _ Hrun)
    as (fresh & data & awaited & slicing & Hfresh & Hdata & _ & Hoptions
        & Hstart & ->).
  injection Hstart as <- <-. rewrite <- Hoptions.
  exists fresh, data. eexists _, _, _. cbn [getState effects].
  split_and!.
  - exact Hfresh.
  - exact Hdata.
  - reflexivity.
  - apply last_snoc.
  - reflexivity.
  - reflexivity.
  - intros key Hkey. cbn [ev_sendOptions]. by rewrite lookup_insert_ne.
  - cbn [ev_sendOptions]. by rewrite lookup_insert_eq.
  - intros name Hname. by rewrite lookup_insert_ne.
  - rewrite lookup_insert_eq, Hdata. reflexivity.
Qed.

(** Aborting a send that waits for the listeners only registers callbacks. *)
Lemma abortTimes_waiting n sending awaited w :
  chunkXhrRequest sending = Awaiting awaited →
  abortTimes transportAbort n sending w
  = (Ok (mkSending (Awaiting awaited)
                   (callbacks sending ++ replicate n ThenAbort)
                   (sending_request sending) (sending_senderType sending)),
     w).
Proof.
  revert sending. induction n as [|n IH]; intros sending Hwaiting.
  - cbn [abortTimes replicate]. rewrite app_nil_r, <- Hwaiting.
    by destruct sending.
  - cbn [abortTimes replicate]. unfold bind, sending_abort.
    rewrite Hwaiting. unfold ret at 1. cbn beta iota. cbn [snd].
    rewrite IH by done.
    cbn [callbacks sending_request sending_senderType].
    by rewrite <- app_assoc.
Qed.

(** The abort callbacks of a fulfilled send call the result's [abort] one
    after the other and change nothing else. *)
Lemma run_callbacks_aborts n (result : SendResult) sending w :
  run_callbacks transportAbort result sending (replicate n ThenAbort) w
  = (Ok sending,
     mkChunked (getState w)
               (effects w ++ replicate n (CallAbort (abort result)))).
Proof.
  revert w. induction n as [|n IH]; intros w.
  - cbn. rewrite app_nil_r. by destruct w.
  - cbn [replicate run_callbacks]. unfold bind.
    unfold run_callback at 1. unfold bind, callAbort, bind, perform, ret.
    cbn beta iota. rewrite IH. cbn [getState effects].
    by rewrite <- app_assoc.
Qed.

(** However often a waiting send is aborted, every call answers at once
    without doing anything, and when the listeners have answered each call
    reaches the [abort] of the result exactly once, after the send itself;
    the request handed back is still the result's. *)
Theorem aborts_while_waiting_delivered n sending awaited w :
  chunkXhrRequest sending = Awaiting awaited →
  callbacks sending = [ThenRequest] →
  ∃ queued,
    abortTimes transportAbort n sending w = (Ok queued, w)
    ∧ ∀ updatedData later,
        ∃ result started settled,
          uploadChunkWithUpdatedData_resume xhrSend awaited updatedData later
          = (Ok result, started)
          ∧ settle xhrSend transportAbort updatedData queued later
            = (Ok settled,
               mkChunked (getState started)
                         (effects started
                          ++ replicate n (CallAbort (abort result))))
          ∧ chunkXhrRequest settled = Fulfilled result
          ∧ callbacks settled = []
          ∧ sending_request settled = Some (inl (request result)).
Proof.
  intros Hwaiting Hcallbacks. eexists.
  split; [by apply abortTimes_waiting|].
  intros updatedData later.
  destruct (uploadChunkWithUpdatedData_resume_run xhrSend awaited updatedData
              later) as (result & started & Hresume).
  exists result, started. eexists. split; [exact Hresume|].
  unfold settle. cbn [chunkXhrRequest callbacks sending_request
                      sending_senderType].
  rewrite (bind_Ok _ _ _ _ _ Hresume), Hcallbacks.
  cbn [app run_callbacks]. unfold bind at 1. unfold run_callback at 1.
  unfold ret at 1. cbn beta iota. rewrite run_callbacks_aborts.
  split_and!; reflexivity.
Qed.

(** When the interception fails, the request handed back is rejected with
    the same reason, and an abort asked before or after the failure never
    reaches an abort function: every call still answers true, no [abort] of
    a send result is called, and nothing is sent, sliced or triggered. The
    rejections that the abort callbacks leave unhandled on the failed
    promise are not among the effects followed here. *)
Theorem rejected_send_reaches_no_abort n m sending awaited reason w :
  chunkXhrRequest sending = Awaiting awaited →
  ∃ queued rejected,
    abortTimes transportAbort n sending w = (Ok queued, w)
    ∧ settle_rejected reason queued w = (Ok rejected, w)
    ∧ sending_request rejected = Some (inr reason)
    ∧ (∀ later, sending_abort transportAbort rejected later
                = (Ok (true, rejected), later))
    ∧ (∀ later f, CallAbort f ∈ effects (abortTimes transportAbort m rejected
                                           later).2 →
                  CallAbort f ∈ effects later)
    ∧ abortTimes transportAbort m rejected w = (Ok rejected, w).
Proof.
  intros Hwaiting. eexists _, _.
  split; [by apply abortTimes_waiting|].
  split; [reflexivity|]. split; [reflexivity|]. split; [reflexivity|].
  assert (∀ later,
            abortTimes transportAbort m
              (mkSending (Rejected reason) [] (Some (inr reason))
                 (sending_senderType sending)) later
            = (Ok (mkSending (Rejected reason) [] (Some (inr reason))
                     (sending_senderType sending)), later)) as Hnothing.
  { induction m as [|m IH]; intros later; [reflexivity|].
    cbn [abortTimes]. unfold bind. unfold sending_abort at 1.
    cbn [chunkXhrRequest]. unfold ret at 1. cbn beta iota. cbn [snd].
    apply IH. }
  split.
  - intros later f. cbn [sending_senderType]. by rewrite Hnothing.
  - apply Hnothing.
Qed.

End SendChunkComposed.

Lemma sendChunk_skipped_example :
  let item := Samples.item "item-1" "batch-1" FILE_UPLOADING in
  ∃ sending w' settled done_,
    SendChunk.sendChunk Samples.slices Samples.chunk0 item Samples.chunked
    = (Ok sending, w')
    ∧ SendChunk.settle Samples.xhr Samples.xhrAbort SendChunk.UFalse sending w'
      = (Ok settled, w')
    ∧ SendChunk.sending_request settled
      = Some (inl (SendChunk.Resolved done_))
    ∧ SendChunk.status done_ = 200
    ∧ noNetwork (SendChunk.effects w').
Proof.
  intros item.
  assert (∃ sending w',
            SendChunk.sendChunk Samples.slices Samples.chunk0 item
                                Samples.chunked
            = (Ok sending, w')) as (sending & w' & Hrun).
  { eexists _, _. vm_compute. reflexivity. }
  destruct (sendChunk_skipped_without_network
              Samples.slices Samples.xhr Samples.xhrAbort
              Samples.chunk0 item Samples.chunked sending w' Hrun)
    as (settled & done_ & Hsettle & _ & Hrequest & _ & Hstatus
        & since & Heffects & Hsince).
  exists sending, w', settled, done_. split_and!; [done..|].
  by rewrite Heffects.
Defined.

Lemma sendChunk_sent_once_example :
  let item := Samples.item "item-1" "batch-1" FILE_UPLOADING in
  ∃ sending w' settled later url sendOptions,
    SendChunk.sendChunk Samples.slices Samples.chunk1_stale item
                        Samples.chunked
    = (Ok sending, w')
    ∧ SendChunk.settle Samples.xhr Samples.xhrAbort SendChunk.UUndefined
                       sending w'
      = (Ok settled, later)
    ∧ SendChunk.effects later
      = SendChunk.effects w'
        ++ [SendChunk.XhrSend
              [SendChunk.createBatchItem (Some (Blob.mk 500 "flower.jpg"))
                                         "c-1"]
              url sendOptions]
    ∧ noNetwork (SendChunk.effects w')
    ∧ SendChunk.sending_request settled
      = Some (inl (SendChunk.TransportRequest 7)).
Proof.
  intros item.
  assert (∃ sending w',
            SendChunk.sendChunk Samples.slices Samples.chunk1_stale item
                                Samples.chunked
            = (Ok sending, w')
            ∧ SendChunk.getState w' = SendChunk.getState Samples.chunked)
    as (sending & w' & Hrun & Hstate).
  { eexists _, _. split; vm_compute; reflexivity. }
  destruct (sendChunk_sent_once
              Samples.slices Samples.xhr Samples.xhrAbort
              Samples.chunk1_stale item Samples.chunked sending w'
              SendChunk.UUndefined Hrun)
    as (fresh & settled & url & sendOptions & since & Hfresh & Hsettle & _
        & Hrequest & _ & Heffects & Hsince); [done|].
  unfold freshChunk in Hfresh. rewrite Hstate in Hfresh.
  cbn in Hfresh. injection Hfresh as <-.
  exists sending, w', settled. eexists _, url, sendOptions.
  split_and!; [done|exact Hsettle|done| |done].
  by rewrite Heffects.
Defined.

Lemma sendChunk_trusts_only_state_data_example :
  let item := Samples.item "item-1" "batch-1" FILE_UPLOADING in
  Chunk.data Samples.chunk0_held = Some (Blob.mk 500 "flower.jpg")
  ∧ freshChunk Samples.chunked Samples.chunk0_held = Some Samples.chunk0
  ∧ Chunk.data Samples.chunk0 = None
  ∧ SendChunk.sendChunk Samples.slices Samples.chunk0_held item
                        Samples.chunked
    = (Throw (ChunkedSendError "chunk failure - failed to slice"),
       Samples.chunked).
Proof.
  intros item. split_and!; [done..|].
  by apply (sendChunk_trusts_only_state_data
              Samples.slices Samples.chunk0_held Samples.chunk0
              (Blob.mk 500 "flower.jpg") item Samples.chunked).
Defined.

Lemma sendChunk_offers_state_options_example :
  let item := Samples.item "item-1" "batch-1" FILE_UPLOADING in
  ∃ sending w' payload headers,
    SendChunk.sendChunk Samples.slices Samples.chunk1_stale item
                        Samples.chunked
    = (Ok sending, w')
    ∧ last (SendChunk.effects w') = Some (SendChunk.TriggerUpdater payload)
    ∧ SendChunk.ev_sendOptions payload !! "method"
      = Some (JPrim (JStr "POST"))
    ∧ SendChunk.ev_sendOptions payload !! "headers" = Some (JObj headers)
    ∧ headers !! "x-upload" = Some (JStr "1")
    ∧ headers !! "Content-Range" = Some (JStr "bytes 500-999/1000").
Proof.
  intros item.
  assert (∃ sending w',
            SendChunk.sendChunk Samples.slices Samples.chunk1_stale item
                                Samples.chunked
            = (Ok sending, w')
            ∧ SendChunk.getState w' = SendChunk.getState Samples.chunked)
    as (sending & w' & Hrun & Hstate).
  { eexists _, _. split; vm_compute; reflexivity. }
  destruct (sendChunk_offers_state_options
              Samples.slices Samples.chunk1_stale item Samples.chunked
              sending w' Hrun)
    as (fresh & data & awaited & payload & headers & Hfresh & Hdata & _
        & Hlast & _ & _ & Hkept & Hheaders & Hothers & Hrange).
  unfold freshChunk in Hfresh. rewrite Hstate in Hfresh.
  cbn in Hfresh. injection Hfresh as <-.
  cbn in Hdata. injection Hdata as <-.
  exists sending, w', payload, headers.
  split_and!; [done|done| |done| |].
  - by rewrite Hkept.
  - by rewrite Hothers.
  - rewrite Hrange. by vm_compute.
Defined.

Lemma aborts_while_waiting_example :
  SendChunk.chunkXhrRequest Samples.waiting
  = SendChunk.Awaiting Samples.awaited
  ∧ SendChunk.callbacks Samples.waiting = [SendChunk.ThenRequest]
  ∧ ∃ queued settled later before,
      abortTimes Samples.xhrAbort 2 Samples.waiting Samples.chunked
      = (Ok queued, Samples.chunked)
      ∧ SendChunk.settle Samples.xhr Samples.xhrAbort SendChunk.UUndefined
                         queued Samples.chunked
        = (Ok settled, later)
      ∧ SendChunk.effects later
        = before ++ [SendChunk.CallAbort (SendChunk.abortTransport 7);
                     SendChunk.CallAbort (SendChunk.abortTransport 7)].
Proof.
  split_and!; [done..|].
  destruct (aborts_while_waiting_delivered
              Samples.xhr Samples.xhrAbort 2 Samples.waiting Samples.awaited
              Samples.chunked eq_refl eq_refl) as (queued & Hqueued & Hlater).
  destruct (Hlater SendChunk.UUndefined Samples.chunked)
    as (result & started & settled & Hresume & Hsettle & _).
  exists queued, settled. eexists _, (SendChunk.effects started).
  split_and!; [exact Hqueued|exact Hsettle|].
  cbn in Hresume. injection Hresume as <- _. reflexivity.
Defined.

Lemma rejected_send_reaches_no_abort_example :
  SendChunk.chunkXhrRequest Samples.waiting
  = SendChunk.Awaiting Samples.awaited
  ∧ ∃ queued rejected,
      abortTimes Samples.xhrAbort 1 Samples.waiting Samples.chunked
      = (Ok queued, Samples.chunked)
      ∧ SendChunk.settle_rejected "listener failed" queued Samples.chunked
        = (Ok rejected, Samples.chunked)
      ∧ SendChunk.sending_request rejected = Some (inr "listener failed")
      ∧ abortTimes Samples.xhrAbort 1 rejected Samples.chunked
        = (Ok rejected, Samples.chunked).
Proof.
  split; [done|].
  destruct (rejected_send_reaches_no_abort
              Samples.xhrAbort 1 1 Samples.waiting Samples.awaited
              "listener failed" Samples.chunked eq_refl)
    as (queued & rejected & Hqueued & Hrejected & Hrequest & _ & _ & Hlater).
  by exists queued, rejected.
Defined.
